(** * AsmJit operand layer: a shallow embedding of core/operand.h and
      core/callconv.cpp, and the properties of the bit-packed operand record.

    The sixteen-byte operand is modelled as four 32-bit words.  Every
    [uint32_t] is a [Z] in [0, 2^32); casts, shifts, complement and the
    arithmetic that can overflow have their wrap-around written out.  The
    64-bit views of the union ([_p64], [_imm.value]) are read on a
    little-endian target, the one [Globals::kHalfLo == 0] stands for. *)

From Stdlib Require Import ZArith Lia List Bool.
From Stdlib Require Import Btauto.
From coqutil Require Import Z.bitblast.
Import ListNotations.

Local Open Scope Z_scope.

(* ------------------------------------------------------------------------ *)
(** ** Fixed-width integers                                                  *)
(* ------------------------------------------------------------------------ *)

(** [uint32_t(x)] and [uint64_t(x)]: reduction modulo the width. *)
Definition u32 (x : Z) : Z := x mod 2 ^ 32.
Definition u64 (x : Z) : Z := x mod 2 ^ 64.

(** [int32_t(x)] and [int64_t(x)]: the two's complement reading. *)
Definition i32 (x : Z) : Z := (x + 2 ^ 31) mod 2 ^ 32 - 2 ^ 31.
Definition i64 (x : Z) : Z := (x + 2 ^ 63) mod 2 ^ 64 - 2 ^ 63.

(** Operators on [uint32_t]. *)
Definition add32 (x y : Z) : Z := u32 (x + y).
Definition sub32 (x y : Z) : Z := u32 (x - y).
Definition not32 (x : Z) : Z := u32 (Z.lnot x).
Definition shl32 (x s : Z) : Z := u32 (Z.shiftl x s).
Definition shr32 (x s : Z) : Z := Z.shiftr x s.

Definition is_u32 (x : Z) : Prop := 0 <= x < 2 ^ 32.
Definition is_i64 (x : Z) : Prop := - 2 ^ 63 <= x < 2 ^ 63.

(** The narrower casts: [int8_t(x)], [int16_t(x)], [uint8_t(x)], [uint16_t(x)]. *)
Definition i8 (x : Z) : Z := (x + 2 ^ 7) mod 2 ^ 8 - 2 ^ 7.
Definition i16 (x : Z) : Z := (x + 2 ^ 15) mod 2 ^ 16 - 2 ^ 15.
Definition u8 (x : Z) : Z := x mod 2 ^ 8.
Definition u16 (x : Z) : Z := x mod 2 ^ 16.

(* ------------------------------------------------------------------------ *)
(** ** The operand record                                                    *)
(* ------------------------------------------------------------------------ *)

(** [Operand_]'s anonymous union, seen through [_p32[4]].  The field names
    are those of [AnyData]; [RegData] and [LabelData] share them, [MemData]
    calls the last three words [base], [index] and [offsetLo32], and
    [ImmData] overlays a 64-bit [value] on the last two.
    [Init p0 p1 p2 p3] is [Operand(Globals::Init, p0, p1, p2, p3)]. *)
Record Operand : Type := Init {
  signature : Z;
  id : Z;
  p32_2 : Z;
  p32_3 : Z
}.

(** The four words are 32-bit values. *)
Definition valid (o : Operand) : Prop :=
  is_u32 (signature o) /\ is_u32 (id o) /\ is_u32 (p32_2 o) /\ is_u32 (p32_3 o).

(** [_p64[0]] and [_p64[1]]. *)
Definition _p64_0 (o : Operand) : Z := Z.lor (signature o) (Z.shiftl (id o) 32).
Definition _p64_1 (o : Operand) : Z := Z.lor (p32_2 o) (Z.shiftl (p32_3 o) 32).

(** Stores through the union members. *)
Definition set_signature (o : Operand) (v : Z) : Operand :=
  Init v (id o) (p32_2 o) (p32_3 o).
Definition set_id (o : Operand) (v : Z) : Operand :=
  Init (signature o) v (p32_2 o) (p32_3 o).
Definition set_p32_2 (o : Operand) (v : Z) : Operand :=
  Init (signature o) (id o) v (p32_3 o).
Definition set_p32_3 (o : Operand) (v : Z) : Operand :=
  Init (signature o) (id o) (p32_2 o) v.
Definition set_p64_0 (o : Operand) (v : Z) : Operand :=
  Init (u32 v) (u32 (Z.shiftr v 32)) (p32_2 o) (p32_3 o).
Definition set_p64_1 (o : Operand) (v : Z) : Operand :=
  Init (signature o) (id o) (u32 v) (u32 (Z.shiftr v 32)).

(* ------------------------------------------------------------------------ *)
(** ** asmjit::Operand_                                                      *)
(* ------------------------------------------------------------------------ *)

Module Operand_.

(** [enum OpType]. *)
Definition kOpNone : Z := 0.
Definition kOpReg : Z := 1.
Definition kOpMem : Z := 2.
Definition kOpImm : Z := 3.
Definition kOpLabel : Z := 4.

(** [enum SignatureBits]. *)
Definition kSignatureOpShift : Z := 0.
Definition kSignatureOpBits : Z := 0x07.
Definition kSignatureOpMask : Z := shl32 kSignatureOpBits kSignatureOpShift.

Definition kSignatureRegTypeShift : Z := 3.
Definition kSignatureRegTypeBits : Z := 0x1F.
Definition kSignatureRegTypeMask : Z :=
  shl32 kSignatureRegTypeBits kSignatureRegTypeShift.

Definition kSignatureRegGroupShift : Z := 8.
Definition kSignatureRegGroupBits : Z := 0x0F.
Definition kSignatureRegGroupMask : Z :=
  shl32 kSignatureRegGroupBits kSignatureRegGroupShift.

Definition kSignatureMemBaseTypeShift : Z := 3.
Definition kSignatureMemBaseTypeBits : Z := 0x1F.
Definition kSignatureMemBaseTypeMask : Z :=
  shl32 kSignatureMemBaseTypeBits kSignatureMemBaseTypeShift.

Definition kSignatureMemIndexTypeShift : Z := 8.
Definition kSignatureMemIndexTypeBits : Z := 0x1F.
Definition kSignatureMemIndexTypeMask : Z :=
  shl32 kSignatureMemIndexTypeBits kSignatureMemIndexTypeShift.

Definition kSignatureMemBaseIndexShift : Z := 3.
Definition kSignatureMemBaseIndexBits : Z := 0x3FF.
Definition kSignatureMemBaseIndexMask : Z :=
  shl32 kSignatureMemBaseIndexBits kSignatureMemBaseIndexShift.

Definition kSignatureMemAddrTypeShift : Z := 13.
Definition kSignatureMemAddrTypeBits : Z := 0x03.
Definition kSignatureMemAddrTypeMask : Z :=
  shl32 kSignatureMemAddrTypeBits kSignatureMemAddrTypeShift.

Definition kSignatureMemRegHomeShift : Z := 15.
Definition kSignatureMemRegHomeBits : Z := 0x01.
Definition kSignatureMemRegHomeFlag : Z :=
  shl32 kSignatureMemRegHomeBits kSignatureMemRegHomeShift.

Definition kSignatureSizeShift : Z := 24.
Definition kSignatureSizeBits : Z := 0xFF.
Definition kSignatureSizeMask : Z :=
  shl32 kSignatureSizeBits kSignatureSizeShift.

(** The (bits, shift) pairs of [enum SignatureBits], in source order. *)
Definition catalogue : list (Z * Z) :=
  [ (kSignatureOpBits, kSignatureOpShift);
    (kSignatureRegTypeBits, kSignatureRegTypeShift);
    (kSignatureRegGroupBits, kSignatureRegGroupShift);
    (kSignatureMemBaseTypeBits, kSignatureMemBaseTypeShift);
    (kSignatureMemIndexTypeBits, kSignatureMemIndexTypeShift);
    (kSignatureMemBaseIndexBits, kSignatureMemBaseIndexShift);
    (kSignatureMemAddrTypeBits, kSignatureMemAddrTypeShift);
    (kSignatureMemRegHomeBits, kSignatureMemRegHomeShift);
    (kSignatureSizeBits, kSignatureSizeShift) ].

(** [enum PackedId]. *)
Definition kPackedIdMin : Z := 0x00000100.
Definition kPackedIdMax : Z := 0xFFFFFFFF.
Definition kPackedIdCount : Z := u32 (kPackedIdMax - kPackedIdMin + 1).

Definition isPackedId (id : Z) : bool :=
  sub32 id kPackedIdMin <? u32 kPackedIdCount.
Definition packId (id : Z) : Z := add32 id kPackedIdMin.
Definition unpackId (id : Z) : Z := sub32 id kPackedIdMin.

(** Init and reset. *)
Definition _initReg (o : Operand) (sgn rId : Z) : Operand :=
  set_p64_1 (set_id (set_signature o sgn) rId) 0.

Definition reset (o : Operand) : Operand :=
  set_p64_1 (set_p64_0 o 0) 0.

(** Accessors. *)
Definition hasSignature (o : Operand) (sgn : Z) : bool := signature o =? sgn.
Definition getSignature (o : Operand) : Z := signature o.
Definition setSignature (o : Operand) (sgn : Z) : Operand := set_signature o sgn.

Definition _hasSignatureData (o : Operand) (bits : Z) : bool :=
  negb (Z.land (signature o) bits =? 0).
Definition _getSignatureData (o : Operand) (bits shift : Z) : Z :=
  Z.land (shr32 (signature o) shift) bits.

(** [ASMJIT_ASSERT(value <= bits)] is a debug-build check; the store below
    is what every build executes. *)
Definition _setSignatureData (o : Operand) (value bits shift : Z) : Operand :=
  set_signature o
    (Z.lor (Z.land (signature o) (not32 (shl32 bits shift))) (shl32 value shift)).

Definition _addSignatureData (o : Operand) (data : Z) : Operand :=
  set_signature o (Z.lor (signature o) data).

Definition _clearSignatureData (o : Operand) (bits shift : Z) : Operand :=
  set_signature o (Z.land (signature o) (not32 (shl32 bits shift))).

Definition getOp (o : Operand) : Z :=
  _getSignatureData o kSignatureOpBits kSignatureOpShift.
Definition isNone (o : Operand) : bool := signature o =? 0.
Definition isReg (o : Operand) : bool := getOp o =? kOpReg.
Definition isMem (o : Operand) : bool := getOp o =? kOpMem.
Definition isImm (o : Operand) : bool := getOp o =? kOpImm.
Definition isLabel (o : Operand) : bool := getOp o =? kOpLabel.

Definition isPhysReg (o : Operand) : bool := isReg o && (id o <? 0xFF).
Definition isVirtReg (o : Operand) : bool := isReg o && (0xFF <? id o).

Definition getSize (o : Operand) : Z :=
  _getSignatureData o kSignatureSizeBits kSignatureSizeShift.
Definition getId (o : Operand) : Z := id o.

Definition isEqual (o other : Operand) : bool :=
  (_p64_0 o =? _p64_0 other) && (_p64_1 o =? _p64_1 other).

(** [Operand::Operand()]. *)
Definition Operand_default : Operand := Init kOpNone 0 0 0.


(** [isReg(rType)] and [isReg(rType, rId)]. *)
Definition isReg_type (o : Operand) (rType : Z) : bool :=
  Z.land (signature o) (Z.lor kSignatureOpMask kSignatureRegTypeMask)
  =? Z.lor (shl32 kOpReg kSignatureOpShift) (shl32 rType kSignatureRegTypeShift).
Definition isReg_type_id (o : Operand) (rType rId : Z) : bool :=
  isReg_type o rType && (getId o =? rId).

(** [hasSize()] and [hasSize(size)]. *)
Definition hasSize (o : Operand) : bool := _hasSignatureData o kSignatureSizeMask.
Definition hasSize_eq (o : Operand) (size : Z) : bool := getSize o =? size.

End Operand_.

(* ------------------------------------------------------------------------ *)
(** ** asmjit::IntUtils (the part operand.h calls)                           *)
(* ------------------------------------------------------------------------ *)

Module IntUtils.

(** Modelled from the spec: [IntUtils::maskFromBool<uint32_t>] is declared
    in core/intutils.h, outside the two files embedded here.  It turns a
    condition into a word mask: all ones when the condition holds, zero
    otherwise, which is how [setOffset] stores the high half "only if
    currently in absolute-address mode". *)
Definition maskFromBool (b : bool) : Z := if b then 0xFFFFFFFF else 0.

(** Modelled from the spec: [IntUtils::isInt8], [isInt16] and [isInt32] on
    an [int64_t] (core/intutils.h, outside the two files embedded here)
    "test whether the stored signed 64-bit value lies within the respective
    range". *)
Definition isInt8 (x : Z) : bool := (-128 <=? x) && (x <=? 127).
Definition isInt16 (x : Z) : bool := (-32768 <=? x) && (x <=? 32767).
Definition isInt32 (x : Z) : bool := (-2147483648 <=? x) && (x <=? 2147483647).

(** Modelled from the spec: [IntUtils::unpackU32At0] and [unpackU32At1]
    (core/intutils.h, outside the two files embedded here) give the two
    32-bit halves of a 64-bit payload in memory order; on the little-endian
    target the low half comes first. *)
Definition unpackU32At0 (x : Z) : Z := u32 (u64 x).
Definition unpackU32At1 (x : Z) : Z := u32 (Z.shiftr (u64 x) 32).

End IntUtils.

(* ------------------------------------------------------------------------ *)
(** ** asmjit::Label                                                         *)
(* ------------------------------------------------------------------------ *)

Module Label.
Import Operand_.

Definition kLabelTag : Z := 0x1.

(** [Label()] and [Label(id)]. *)
Definition Label_default : Operand := Init kOpLabel 0 0 0.
Definition Label_of_id (lId : Z) : Operand := Init kOpLabel lId 0 0.

Definition reset (o : Operand) : Operand :=
  set_p64_1 (set_id (set_signature o kOpLabel) 0) 0.

Definition isValid (o : Operand) : bool := negb (id o =? 0).
Definition setId (o : Operand) (lId : Z) : Operand := set_id o lId.

End Label.

(* ------------------------------------------------------------------------ *)
(** ** asmjit::Reg                                                           *)
(* ------------------------------------------------------------------------ *)

Module Reg.
Import Operand_.

(** [enum RegType] (the members used below) and [enum Group]. *)
Definition kRegNone : Z := 0.
Definition kRegGp32 : Z := 5.
Definition kRegGp64 : Z := 6.
Definition kRegVec128 : Z := 9.
Definition kRegMax : Z := 31.

Definition kGroupGp : Z := 0.
Definition kGroupVec : Z := 1.

(** [enum Id]. *)
Definition kIdBad : Z := 0xFF.

(** [kSignature] as [ASMJIT_DEFINE_REG_TRAITS] computes it from a register
    kind's type, group and size. *)
Definition kSignature (kType kGroup kSize : Z) : Z :=
  Z.lor (Z.lor (Z.lor (shl32 kOpReg kSignatureOpShift)
                      (shl32 kType kSignatureRegTypeShift))
               (shl32 kGroup kSignatureRegGroupShift))
        (shl32 kSize kSignatureSizeShift).

(** [Reg()] and [Reg(signature, rId)]. *)
Definition Reg_default : Operand := Operand_default.
Definition Reg_of (sgn rId : Z) : Operand := Init sgn rId 0 0.

Definition isValid (o : Operand) : bool := negb (signature o =? 0).

Definition isPhysReg (o : Operand) : bool := id o <? kIdBad.
Definition isVirtReg (o : Operand) : bool := kIdBad <? id o.

Definition isSame (o other : Operand) : bool := _p64_0 o =? _p64_0 other.

Definition isType (o : Operand) (type : Z) : bool :=
  Z.land (signature o) kSignatureRegTypeMask =? shl32 type kSignatureRegTypeShift.
Definition isGroup (o : Operand) (group : Z) : bool :=
  Z.land (signature o) kSignatureRegGroupMask =? shl32 group kSignatureRegGroupShift.
Definition isGp (o : Operand) : bool := isGroup o kGroupGp.
Definition isVec (o : Operand) : bool := isGroup o kGroupVec.

Definition getType (o : Operand) : Z :=
  _getSignatureData o kSignatureRegTypeBits kSignatureRegTypeShift.
Definition getGroup (o : Operand) : Z :=
  _getSignatureData o kSignatureRegGroupBits kSignatureRegGroupShift.

Definition setId (o : Operand) (rId : Z) : Operand := set_id o rId.
Definition setSignatureAndId (o : Operand) (sgn rId : Z) : Operand :=
  set_id (set_signature o sgn) rId.


(** [Reg(other, rId)]. *)
Definition Reg_with_id (other : Operand) (rId : Z) : Operand :=
  Init (signature other) rId 0 0.

(** [Reg::isReg(rType)] and [Reg::isReg(rType, rId)]. *)
Definition isReg_type (o : Operand) (rType : Z) : bool := isType o rType.
Definition isReg_type_id (o : Operand) (rType rId : Z) : bool :=
  isType o rType && (getId o =? rId).

(** [cloneAs<RegT>()], with [RegT::kSignature] as an argument, and
    [cloneAs(other)]. *)
Definition cloneAs (o : Operand) (kSignature_RegT : Z) : Operand :=
  Reg_of kSignature_RegT (getId o).
Definition cloneAs_other (o other : Operand) : Operand :=
  Reg_of (getSignature other) (getId o).

(** The statics [Reg::isGp(op)], [Reg::isVec(op)] and their [rId] forms. *)
Definition isGp_op (op : Operand) : bool :=
  Z.land (getSignature op) (Z.lor kSignatureOpMask kSignatureRegGroupMask)
  =? Z.lor (shl32 kOpReg kSignatureOpShift) (shl32 kGroupGp kSignatureRegGroupShift).
Definition isVec_op (op : Operand) : bool :=
  Z.land (getSignature op) (Z.lor kSignatureOpMask kSignatureRegGroupMask)
  =? Z.lor (shl32 kOpReg kSignatureOpShift) (shl32 kGroupVec kSignatureRegGroupShift).
Definition isGp_op_id (op : Operand) (rId : Z) : bool :=
  isGp_op op && (getId op =? rId).
Definition isVec_op_id (op : Operand) (rId : Z) : bool :=
  isVec_op op && (getId op =? rId).

End Reg.

(* ------------------------------------------------------------------------ *)
(** ** asmjit::RegInfo and asmjit::RegOnly                                   *)
(* ------------------------------------------------------------------------ *)

Module RegInfo.
Import Operand_.

(** [RegInfo] holds one word, [_signature]. *)
Definition reset (_signature : Z) : Z := 0.
Definition setSignature (_signature sgn : Z) : Z := sgn.
Definition isValid (_signature : Z) : bool := negb (_signature =? 0).
Definition getSignature (_signature : Z) : Z := _signature.
Definition getOp (_signature : Z) : Z :=
  Z.land (shr32 _signature kSignatureOpShift) kSignatureOpBits.
Definition getType (_signature : Z) : Z :=
  Z.land (shr32 _signature kSignatureRegTypeShift) kSignatureRegTypeBits.
Definition getGroup (_signature : Z) : Z :=
  Z.land (shr32 _signature kSignatureRegGroupShift) kSignatureRegGroupBits.
Definition getSize (_signature : Z) : Z :=
  Z.land (shr32 _signature kSignatureSizeShift) kSignatureSizeBits.

End RegInfo.

Module RegOnly.
Import Operand_.

(** The 8-byte carrier. *)
Record t : Type := mk {
  _signature : Z;
  _id : Z
}.

Definition init (self : t) (sgn rId : Z) : t := mk sgn rId.
Definition init_reg (self : t) (reg : Operand) : t :=
  init self (getSignature reg) (getId reg).
Definition init_regonly (self : t) (reg : t) : t :=
  init self (_signature reg) (_id reg).
Definition reset (self : t) : t := init self 0 0.

Definition isNone (self : t) : bool := _signature self =? 0.
Definition isValid (self : t) : bool := negb (_signature self =? 0).
Definition isPhysReg (self : t) : bool := _id self <? Reg.kIdBad.
Definition isVirtReg (self : t) : bool := Reg.kIdBad <? _id self.
Definition getSignature (self : t) : Z := _signature self.
Definition getId (self : t) : Z := _id self.
Definition setId (self : t) (rId : Z) : t := mk (_signature self) rId.

Definition _getSignatureData (self : t) (bits shift : Z) : Z :=
  Z.land (shr32 (_signature self) shift) bits.
Definition getType (self : t) : Z :=
  _getSignatureData self kSignatureRegTypeBits kSignatureRegTypeShift.
Definition getGroup (self : t) : Z :=
  _getSignatureData self kSignatureRegGroupBits kSignatureRegGroupShift.

(** [toReg<RegT>()]: [RegT(_signature, _id)]. *)
Definition toReg (self : t) : Operand := Reg.Reg_of (_signature self) (_id self).

End RegOnly.

(** The register operands the constructors and setters of this layer
    produce from 32-bit arguments. *)
Inductive RegBuilt : Operand -> Prop :=
| built_default : RegBuilt Reg.Reg_default
| built_Reg_of (sgn rId : Z) :
    is_u32 sgn -> is_u32 rId -> RegBuilt (Reg.Reg_of sgn rId)
| built_Reg_with_id (other : Operand) (rId : Z) :
    RegBuilt other -> is_u32 rId -> RegBuilt (Reg.Reg_with_id other rId)
| built__initReg (o : Operand) (sgn rId : Z) :
    is_u32 sgn -> is_u32 rId -> RegBuilt (Operand_._initReg o sgn rId)
| built_cloneAs (r : Operand) (kSignature_RegT : Z) :
    RegBuilt r -> is_u32 kSignature_RegT -> RegBuilt (Reg.cloneAs r kSignature_RegT)
| built_cloneAs_other (r other : Operand) :
    RegBuilt r -> RegBuilt other -> RegBuilt (Reg.cloneAs_other r other)
| built_toReg (ro : RegOnly.t) :
    is_u32 (RegOnly._signature ro) -> is_u32 (RegOnly._id ro) ->
    RegBuilt (RegOnly.toReg ro)
| built_setId (r : Operand) (rId : Z) :
    RegBuilt r -> is_u32 rId -> RegBuilt (Reg.setId r rId)
| built_setSignatureAndId (r : Operand) (sgn rId : Z) :
    RegBuilt r -> is_u32 sgn -> is_u32 rId ->
    RegBuilt (Reg.setSignatureAndId r sgn rId).

(* ------------------------------------------------------------------------ *)
(** ** asmjit::Mem                                                           *)
(* ------------------------------------------------------------------------ *)

Module Mem.
Import Operand_.

(** [enum AddrType]. *)
Definition kAddrTypeDefault : Z := 0.
Definition kAddrTypeAbs : Z := 1.
Definition kAddrTypeRel : Z := 2.
Definition kAddrTypeWrt : Z := 3.

(** The [MemData] view of words 1 to 3. *)
Definition base (o : Operand) : Z := id o.
Definition index (o : Operand) : Z := p32_2 o.
Definition offsetLo32 (o : Operand) : Z := p32_3 o.
Definition set_base (o : Operand) (v : Z) : Operand := set_id o v.
Definition set_index (o : Operand) (v : Z) : Operand := set_p32_2 o v.
Definition set_offsetLo32 (o : Operand) (v : Z) : Operand := set_p32_3 o v.

(** [Mem()]: the operand that points to [0]. *)
Definition Mem_default : Operand := Init kOpMem 0 0 0.

(** [Mem(Globals::Init, baseType, baseId, indexType, indexId, off, size, flags)]. *)
Definition Mem_of (baseType baseId indexType indexId off size flags : Z) : Operand :=
  Init (Z.lor (Z.lor (Z.lor (Z.lor kOpMem (shl32 baseType kSignatureMemBaseTypeShift))
                            (shl32 indexType kSignatureMemIndexTypeShift))
                     (shl32 size kSignatureSizeShift))
              flags)
       baseId indexId (u32 off).

Definition reset (o : Operand) : Operand :=
  set_p64_1 (set_id (set_signature o kOpMem) 0) 0.

Definition hasAddrType (o : Operand) : bool :=
  _hasSignatureData o kSignatureMemAddrTypeMask.
Definition getAddrType (o : Operand) : Z :=
  _getSignatureData o kSignatureMemAddrTypeBits kSignatureMemAddrTypeShift.
Definition setAddrType (o : Operand) (addrType : Z) : Operand :=
  _setSignatureData o addrType kSignatureMemAddrTypeBits kSignatureMemAddrTypeShift.
Definition resetAddrType (o : Operand) : Operand :=
  _clearSignatureData o kSignatureMemAddrTypeBits kSignatureMemAddrTypeShift.

Definition isRegHome (o : Operand) : bool :=
  _hasSignatureData o kSignatureMemRegHomeFlag.
Definition setRegHome (o : Operand) : Operand :=
  set_signature o (Z.lor (signature o) kSignatureMemRegHomeFlag).
Definition clearRegHome (o : Operand) : Operand :=
  set_signature o (Z.land (signature o) (not32 kSignatureMemRegHomeFlag)).

Definition hasBase (o : Operand) : bool :=
  negb (Z.land (signature o) kSignatureMemBaseTypeMask =? 0).
Definition hasIndex (o : Operand) : bool :=
  negb (Z.land (signature o) kSignatureMemIndexTypeMask =? 0).
Definition hasBaseOrIndex (o : Operand) : bool :=
  negb (Z.land (signature o) kSignatureMemBaseIndexMask =? 0).
Definition hasBaseAndIndex (o : Operand) : bool :=
  negb (Z.land (signature o) kSignatureMemBaseTypeMask =? 0)
  && negb (Z.land (signature o) kSignatureMemIndexTypeMask =? 0).

Definition hasBaseReg (o : Operand) : bool :=
  shl32 Label.kLabelTag kSignatureMemBaseTypeShift
  <? Z.land (signature o) kSignatureMemBaseTypeMask.
Definition hasBaseLabel (o : Operand) : bool :=
  Z.land (signature o) kSignatureMemBaseTypeMask
  =? shl32 Label.kLabelTag kSignatureMemBaseTypeShift.

Definition getBaseType (o : Operand) : Z :=
  _getSignatureData o kSignatureMemBaseTypeBits kSignatureMemBaseTypeShift.
Definition getIndexType (o : Operand) : Z :=
  _getSignatureData o kSignatureMemIndexTypeBits kSignatureMemIndexTypeShift.

Definition getBaseId (o : Operand) : Z := base o.
Definition getIndexId (o : Operand) : Z := index o.
Definition setBaseId (o : Operand) (rId : Z) : Operand := set_base o rId.
Definition setIndexId (o : Operand) (rId : Z) : Operand := set_index o rId.

Definition _setBase (o : Operand) (rType rId : Z) : Operand :=
  set_base
    (_setSignatureData o rType kSignatureMemBaseTypeBits kSignatureMemBaseTypeShift)
    rId.
Definition _setIndex (o : Operand) (rType rId : Z) : Operand :=
  set_index
    (_setSignatureData o rType kSignatureMemIndexTypeBits kSignatureMemIndexTypeShift)
    rId.

Definition setBase (o : Operand) (reg : Operand) : Operand :=
  _setBase o (Reg.getType reg) (getId reg).
Definition setIndex (o : Operand) (reg : Operand) : Operand :=
  _setIndex o (Reg.getType reg) (getId reg).

Definition resetBase (o : Operand) : Operand := _setBase o 0 0.
Definition resetIndex (o : Operand) : Operand := _setIndex o 0 0.

Definition setSize (o : Operand) (size : Z) : Operand :=
  _setSignatureData o size kSignatureSizeBits kSignatureSizeShift.

Definition isOffset64Bit (o : Operand) : bool := getBaseType o =? 0.

Definition hasOffset (o : Operand) : bool :=
  negb (Z.lor (offsetLo32 o)
              (u32 (Z.land (base o) (IntUtils.maskFromBool (isOffset64Bit o))))
        =? 0).

(** The absolute address held in [base:offsetLo32], as a [uint64_t]. *)
Definition offset64 (o : Operand) : Z :=
  Z.lor (u64 (offsetLo32 o)) (u64 (Z.shiftl (u64 (base o)) 32)).

Definition getOffset (o : Operand) : Z :=
  if isOffset64Bit o then i64 (offset64 o)
  else i64 (i32 (offsetLo32 o)).

Definition getOffsetLo32 (o : Operand) : Z := i32 (offsetLo32 o).
Definition getOffsetHi32 (o : Operand) : Z := i32 (base o).

Definition setOffset (o : Operand) (offset : Z) : Operand :=
  let lo := u32 (Z.land (u64 offset) 0xFFFFFFFF) in
  let hi := u32 (Z.shiftr (u64 offset) 32) in
  let hiMsk := IntUtils.maskFromBool (isOffset64Bit o) in
  let o1 := set_offsetLo32 o lo in
  set_base o1 (Z.lor (Z.land hi hiMsk) (Z.land (base o1) (not32 hiMsk))).

Definition setOffsetLo32 (o : Operand) (offset : Z) : Operand :=
  set_offsetLo32 o (u32 offset).

(** The 64-bit sum of the absolute branch is an [int64_t] addition, which
    C++ defines only when it does not overflow; the wrap-around written
    here is what the targets compute, and every statement about the value
    of that sum assumes that it stays in the [int64_t] range. *)
Definition addOffset (o : Operand) (offset : Z) : Operand :=
  if isOffset64Bit o then
    let result := i64 (offset + i64 (offset64 o)) in
    let o1 := set_offsetLo32 o (u32 (Z.land (u64 result) 0xFFFFFFFF)) in
    set_base o1 (u32 (Z.shiftr (u64 result) 32))
  else
    set_offsetLo32 o
      (add32 (offsetLo32 o) (u32 (Z.land (u64 offset) 0xFFFFFFFF))).

Definition addOffsetLo32 (o : Operand) (offset : Z) : Operand :=
  set_offsetLo32 o (add32 (offsetLo32 o) (u32 offset)).

Definition resetOffset (o : Operand) : Operand := setOffset o 0.
Definition resetOffsetLo32 (o : Operand) : Operand := setOffsetLo32 o 0.

(** The mutating members of [Mem], as commands with their arguments. *)
Inductive Mutator : Type :=
| m_reset
| m__setBase (rType rId : Z)
| m__setIndex (rType rId : Z)
| m_resetBase
| m_resetIndex
| m_setOffset (offset : Z)
| m_setOffsetLo32 (offset : Z)
| m_addOffset (offset : Z)
| m_addOffsetLo32 (offset : Z)
| m_setSize (size : Z)
| m_setAddrType (addrType : Z)
| m_resetAddrType
| m_setRegHome
| m_clearRegHome.

(** Calling a mutator on [o]. *)
Definition call (c : Mutator) (o : Operand) : Operand :=
  match c with
  | m_reset => reset o
  | m__setBase rType rId => _setBase o rType rId
  | m__setIndex rType rId => _setIndex o rType rId
  | m_resetBase => resetBase o
  | m_resetIndex => resetIndex o
  | m_setOffset offset => setOffset o offset
  | m_setOffsetLo32 offset => setOffsetLo32 o offset
  | m_addOffset offset => addOffset o offset
  | m_addOffsetLo32 offset => addOffsetLo32 o offset
  | m_setSize size => setSize o size
  | m_setAddrType addrType => setAddrType o addrType
  | m_resetAddrType => resetAddrType o
  | m_setRegHome => setRegHome o
  | m_clearRegHome => clearRegHome o
  end.

(** A sequence of calls, first call first. *)
Definition calls (cs : list Mutator) (o : Operand) : Operand :=
  fold_left (fun acc c => call c acc) cs o.


Definition hasIndexReg (o : Operand) : bool :=
  shl32 Label.kLabelTag kSignatureMemIndexTypeShift
  <? Z.land (signature o) kSignatureMemIndexTypeMask.

Definition getBaseAndIndexTypes (o : Operand) : Z :=
  _getSignatureData o kSignatureMemBaseIndexBits kSignatureMemBaseIndexShift.


(** The decoded components of a memory operand: base type and id, index
    type and id, address type, home flag, size, displacement word. *)
Definition parts (o : Operand) : Z * Z * Z * Z * Z * bool * Z * Z :=
  (getBaseType o, getBaseId o, getIndexType o, getIndexId o,
   getAddrType o, isRegHome o, getSize o, offsetLo32 o).

End Mem.

(* ------------------------------------------------------------------------ *)
(** ** asmjit::Imm                                                           *)
(* ------------------------------------------------------------------------ *)

Module Imm.
Import Operand_.

(** The [ImmData] view: [value.u32[0]] is word 2, [value.u32[1]] word 3. *)
Definition value_u64 (o : Operand) : Z := _p64_1 o.
Definition value_i64 (o : Operand) : Z := i64 (value_u64 o).
Definition set_value_i64 (o : Operand) (v : Z) : Operand := set_p64_1 o (u64 v).

(** [Imm()] and [Imm(val)]. *)
Definition Imm_default : Operand := Init kOpImm 0 0 0.
Definition Imm_of (val : Z) : Operand :=
  Init kOpImm 0 (IntUtils.unpackU32At0 val) (IntUtils.unpackU32At1 val).

Definition isInt8 (o : Operand) : bool := IntUtils.isInt8 (value_i64 o).
Definition isInt16 (o : Operand) : bool := IntUtils.isInt16 (value_i64 o).
Definition isInt32 (o : Operand) : bool := IntUtils.isInt32 (value_i64 o).

Definition getInt64 (o : Operand) : Z := value_i64 o.
Definition getUInt64 (o : Operand) : Z := value_u64 o.
Definition setInt64 (o : Operand) (val : Z) : Operand := set_value_i64 o val.


Definition set_value_u64 (o : Operand) (v : Z) : Operand := set_p64_1 o (u64 v).

(** The [i32] and [u32] halves of the payload. *)
Definition value_i32_lo (o : Operand) : Z := i32 (p32_2 o).
Definition value_i32_hi (o : Operand) : Z := i32 (p32_3 o).
Definition value_u32_lo (o : Operand) : Z := p32_2 o.
Definition value_u32_hi (o : Operand) : Z := p32_3 o.

Definition getInt8 (o : Operand) : Z := i8 (Z.land (value_i32_lo o) 0xFF).
Definition getUInt8 (o : Operand) : Z := u8 (Z.land (value_u32_lo o) 0xFF).
Definition getInt16 (o : Operand) : Z := i16 (Z.land (value_i32_lo o) 0xFFFF).
Definition getUInt16 (o : Operand) : Z := u16 (Z.land (value_u32_lo o) 0xFFFF).
Definition getInt32 (o : Operand) : Z := value_i32_lo o.
Definition getInt32Lo (o : Operand) : Z := value_i32_lo o.
Definition getInt32Hi (o : Operand) : Z := value_i32_hi o.
Definition getUInt32 (o : Operand) : Z := value_u32_lo o.
Definition getUInt32Lo (o : Operand) : Z := value_u32_lo o.
Definition getUInt32Hi (o : Operand) : Z := value_u32_hi o.

(** The setters take their argument at its parameter type ([int8_t val],
    [uint8_t val], ...) and widen it to 64 bits: [int64_t(val)] for the
    signed ones, [uint64_t(val)] for the unsigned ones. *)
Definition setInt8 (o : Operand) (val : Z) : Operand := set_value_i64 o (i64 (i8 val)).
Definition setUInt8 (o : Operand) (val : Z) : Operand := set_value_u64 o (u64 (u8 val)).
Definition setInt16 (o : Operand) (val : Z) : Operand := set_value_i64 o (i64 (i16 val)).
Definition setUInt16 (o : Operand) (val : Z) : Operand := set_value_u64 o (u64 (u16 val)).
Definition setInt32 (o : Operand) (val : Z) : Operand := set_value_i64 o (i64 (i32 val)).
Definition setUInt32 (o : Operand) (val : Z) : Operand := set_value_u64 o (u64 (u32 val)).
Definition setUInt64 (o : Operand) (val : Z) : Operand := set_value_u64 o val.

Definition signExtend8Bits (o : Operand) : Operand :=
  set_value_i64 o (i64 (i8 (Z.land (value_u64 o) 0x000000FF))).
Definition signExtend16Bits (o : Operand) : Operand :=
  set_value_i64 o (i64 (i16 (Z.land (value_u64 o) 0x0000FFFF))).
Definition signExtend32Bits (o : Operand) : Operand :=
  set_value_i64 o (i64 (i32 (Z.land (value_u64 o) 0xFFFFFFFF))).

Definition zeroExtend8Bits (o : Operand) : Operand :=
  set_value_u64 o (Z.land (value_u64 o) 0x000000FF).
Definition zeroExtend16Bits (o : Operand) : Operand :=
  set_value_u64 o (Z.land (value_u64 o) 0x0000FFFF).
Definition zeroExtend32Bits (o : Operand) : Operand :=
  set_value_u64 o (Z.land (value_u64 o) 0xFFFFFFFF).

End Imm.

(* ------------------------------------------------------------------------ *)
(** ** asmjit::CallConv::init                                                *)
(* ------------------------------------------------------------------------ *)

Module CallConv.

(** What callconv.cpp takes from its headers and from the build: the
    descriptor type with its [reset], the error codes, and for each
    architecture family whether it is compiled in ([ASMJIT_BUILD_X86],
    [ASMJIT_BUILD_ARM]), its id predicate and its table builder. *)
Record Build : Type := {
  Descriptor : Type;
  Error : Type;
  kErrorInvalidArgument : Error;
  reset : Descriptor -> Descriptor;
  ASMJIT_BUILD_X86 : bool;
  isX86Family : Z -> bool;
  X86CallConvInternal_init : Descriptor -> Z -> Error * Descriptor;
  ASMJIT_BUILD_ARM : bool;
  isArmFamily : Z -> bool;
  ArmCallConvInternal_init : Descriptor -> Z -> Error * Descriptor
}.

(** [DebugUtils::errored] hands its argument back. *)
Definition DebugUtils_errored {B : Build} (err : Error B) : Error B := err.

(** [CallConv::init]: the returned error and the descriptor afterwards. *)
Definition init (B : Build) (self : Descriptor B) (ccId : Z)
  : Error B * Descriptor B :=
  let self := reset B self in
  if ASMJIT_BUILD_X86 B && isX86Family B ccId then
    X86CallConvInternal_init B self ccId
  else if ASMJIT_BUILD_ARM B && isArmFamily B ccId then
    ArmCallConvInternal_init B self ccId
  else
    (DebugUtils_errored (kErrorInvalidArgument B), self).

(** Some compiled-in family claims [ccId]. *)
Definition recognized (B : Build) (ccId : Z) : bool :=
  (ASMJIT_BUILD_X86 B && isX86Family B ccId)
  || (ASMJIT_BUILD_ARM B && isArmFamily B ccId).

(** A sample build: x86 only, descriptors and errors as numbers. *)
Definition x86_only : Build := {|
  Descriptor := Z;
  Error := Z;
  kErrorInvalidArgument := 3;
  reset := fun _ => 0;
  ASMJIT_BUILD_X86 := true;
  isX86Family := fun ccId => (16 <=? ccId) && (ccId <=? 31);
  X86CallConvInternal_init := fun cc ccId => (0, cc + ccId);
  ASMJIT_BUILD_ARM := false;
  isArmFamily := fun ccId => (32 <=? ccId) && (ccId <=? 35);
  ArmCallConvInternal_init := fun cc ccId => (0, cc + ccId)
|}.

End CallConv.

(* ------------------------------------------------------------------------ *)
(** ** Sample operands                                                       *)
(* ------------------------------------------------------------------------ *)

Module Samples.

(** The signature of a 32-bit general-purpose register kind: type
    [kRegGp32], group [kGroupGp], four bytes wide. *)
Definition gpd_signature : Z := Reg.kSignature Reg.kRegGp32 Reg.kGroupGp 4.

(** [Reg(gpd_signature, rId)]. *)
Definition gpd (rId : Z) : Operand := Reg.Reg_of gpd_signature rId.

(** [Operand(Globals::Init, 0, 1, 0, 0)], which is also [Reg(0, 1)]: a zero
    signature over a nonzero id. *)
Definition zero_signature_id1 : Operand := Init 0 1 0 0.

(** A memory operand with base register [gpd 3] and an absolute one. *)
Definition mem_based : Operand := Mem.setBase Mem.Mem_default (gpd 3).
Definition mem_absolute : Operand := Mem.Mem_default.

End Samples.

(* ------------------------------------------------------------------------ *)
(** ** Arithmetic of the word layer                                          *)
(* ------------------------------------------------------------------------ *)

Lemma u32_range x : is_u32 (u32 x).
Proof. unfold is_u32, u32. apply Z.mod_pos_bound. lia. Qed.

Lemma u32_small x : is_u32 x -> u32 x = x.
Proof. unfold is_u32, u32. intros. apply Z.mod_small. lia. Qed.

Lemma u64_small x : 0 <= x < 2 ^ 64 -> u64 x = x.
Proof. unfold u64. intros. apply Z.mod_small. lia. Qed.

Lemma i64_small x : is_i64 x -> i64 x = x.
Proof. unfold is_i64, i64. intros. rewrite Z.mod_small; lia. Qed.

(** A value below [2^k] is its own low [k] bits. *)
Lemma land_ones_small k v : 0 <= k -> 0 <= v <= Z.ones k -> Z.land v (Z.ones k) = v.
Proof.
  intros Hk Hv. rewrite Z.land_ones by lia. apply Z.mod_small.
  rewrite Z.ones_equiv in Hv. lia.
Qed.

(** Bit-by-bit equality; bits at negative positions are cleared by hand. *)
Ltac bits :=
  Z.bitblast; subst;
  repeat match goal with
         | |- context [Z.testbit ?a ?i] =>
             rewrite (Z.testbit_neg_r a i) by lia
         | |- context [Z.testbit (?a mod 2 ^ ?n) ?i] =>
             rewrite (Z.testbit_mod_pow2 a n i) by lia
         | |- context [?a <? ?b] =>
             first [ rewrite (proj2 (Z.ltb_lt a b)) by lia
                   | rewrite (proj2 (Z.ltb_ge a b)) by lia ]
         end;
  try btauto.

(** Reading a field of an operand just built, without touching arithmetic. *)
Ltac fields :=
  cbn [signature id p32_2 p32_3
       set_signature set_id set_p32_2 set_p32_3 set_p64_0 set_p64_1
       Mem.base Mem.index Mem.offsetLo32
       Mem.set_base Mem.set_index Mem.set_offsetLo32].

(** Range facts about closed terms, by evaluation. *)
Ltac by_eval := vm_compute; repeat split; (reflexivity || (intro; discriminate)).

(** A 32-bit value written as its own reduction, for [bits]. *)
Ltac as_u32 x H := rewrite <- (Z.mod_small x (2 ^ 32)) by exact H.

(** Two words packed into a 64-bit value: the halves come back. *)
Lemma pack_lo_mod lo hi :
  Z.lor (lo mod 2 ^ 32) (Z.shiftl hi 32) mod 2 ^ 32 = lo mod 2 ^ 32.
Proof. bits. Qed.

Lemma pack_hi_mod lo hi :
  Z.shiftr (Z.lor (lo mod 2 ^ 32) (Z.shiftl hi 32)) 32 = hi.
Proof. bits. Qed.

Lemma pack_lo lo hi : is_u32 lo -> Z.lor lo (Z.shiftl hi 32) mod 2 ^ 32 = lo.
Proof.
  intros H. generalize (pack_lo_mod lo hi). rewrite (Z.mod_small lo) by exact H.
  trivial.
Qed.

Lemma pack_hi lo hi : is_u32 lo -> Z.shiftr (Z.lor lo (Z.shiftl hi 32)) 32 = hi.
Proof.
  intros H. generalize (pack_hi_mod lo hi). rewrite (Z.mod_small lo) by exact H.
  trivial.
Qed.

Lemma pack_inj lo hi lo' hi' :
  is_u32 lo -> is_u32 lo' ->
  Z.lor lo (Z.shiftl hi 32) = Z.lor lo' (Z.shiftl hi' 32) ->
  lo = lo' /\ hi = hi'.
Proof.
  intros Hl Hl' E. split.
  - rewrite <- (pack_lo lo hi Hl), <- (pack_lo lo' hi' Hl'), E. reflexivity.
  - rewrite <- (pack_hi lo hi Hl), <- (pack_hi lo' hi' Hl'), E. reflexivity.
Qed.

Lemma pack_range_mod lo hi :
  Z.lor (lo mod 2 ^ 32) (Z.shiftl (hi mod 2 ^ 32) 32) mod 2 ^ 64
  = Z.lor (lo mod 2 ^ 32) (Z.shiftl (hi mod 2 ^ 32) 32).
Proof. bits. Qed.

Lemma pack_range lo hi :
  is_u32 lo -> is_u32 hi -> 0 <= Z.lor lo (Z.shiftl hi 32) < 2 ^ 64.
Proof.
  intros Hl Hh. generalize (pack_range_mod lo hi).
  rewrite (Z.mod_small lo), (Z.mod_small hi) by assumption.
  intros <-. apply Z.mod_pos_bound. lia.
Qed.

(* ------------------------------------------------------------------------ *)
(** ** Packed ids                                                            *)
(* ------------------------------------------------------------------------ *)

Lemma kPackedIdCount_value : Operand_.kPackedIdCount = 0xFFFFFF00.
Proof. reflexivity. Qed.

Lemma sub32_add32 i k : is_u32 i -> sub32 (add32 i k) k = i.
Proof.
  unfold sub32, add32, u32, is_u32. intros H.
  rewrite Zminus_mod_idemp_l. replace (i + k - k) with i by lia.
  apply Z.mod_small. exact H.
Qed.

(** C3. For every 32-bit id, unpacking a packed id gives the id back; a
    packed real id of the range [0, kPackedIdCount - 1] is a packed id; and
    no value of the physical range [0, 255] is a packed id. *)
Theorem packId_unpackId_isPackedId (i x : Z) :
  is_u32 i -> 0 <= x <= 255 ->
  Operand_.unpackId (Operand_.packId i) = i /\
  (i <= Operand_.kPackedIdCount - 1 ->
   Operand_.isPackedId (Operand_.packId i) = true) /\
  Operand_.isPackedId x = false.
Proof.
  intros Hi Hx. split; [|split].
  - apply sub32_add32. exact Hi.
  - intros Hc. unfold Operand_.isPackedId, Operand_.packId.
    rewrite sub32_add32 by exact Hi.
    rewrite kPackedIdCount_value in *. apply Z.ltb_lt.
    change (u32 0xFFFFFF00) with 0xFFFFFF00. unfold is_u32 in Hi. lia.
  - unfold Operand_.isPackedId. rewrite kPackedIdCount_value.
    change (u32 0xFFFFFF00) with 0xFFFFFF00. apply Z.ltb_ge.
    unfold sub32, u32, Operand_.kPackedIdMin.
    replace (x - 256) with (x + 4294967040 + (-1) * 2 ^ 32) by lia.
    rewrite Z.mod_add by lia. rewrite Z.mod_small; lia.
Qed.

Lemma packId_unpackId_isPackedId_witness :
  Operand_.unpackId (Operand_.packId 7) = 7 /\
  Operand_.isPackedId (Operand_.packId 7) = true /\
  Operand_.isPackedId 255 = false.
Proof.
  destruct (packId_unpackId_isPackedId 7 255) as (H1 & H2 & H3).
  - unfold is_u32; lia.
  - lia.
  - split; [exact H1 | split; [apply H2; rewrite kPackedIdCount_value; lia | exact H3]].
Defined.

(* ------------------------------------------------------------------------ *)
(** ** Signature fields                                                      *)
(* ------------------------------------------------------------------------ *)

(** Every field of the catalogue is [k] contiguous bits at [shift], inside
    the 32-bit signature. *)
Lemma catalogue_shape bits shift :
  In (bits, shift) Operand_.catalogue ->
  exists k, bits = Z.ones k /\ 0 <= k /\ 0 <= shift /\ k + shift <= 32.
Proof.
  intros H. cbv in H.
  repeat (destruct H as [H | H];
          [ injection H as <- <-;
            first [ exists 3; split; [reflexivity | lia]
                  | exists 5; split; [reflexivity | lia]
                  | exists 4; split; [reflexivity | lia]
                  | exists 10; split; [reflexivity | lia]
                  | exists 2; split; [reflexivity | lia]
                  | exists 1; split; [reflexivity | lia]
                  | exists 8; split; [reflexivity | lia] ]
          | ]).
  contradiction.
Qed.

(** Writing [k] bits at [sh] and reading them back. *)
Lemma field_get_set s v k sh :
  0 <= k -> 0 <= sh -> k + sh <= 32 -> 0 <= v <= Z.ones k ->
  Z.land (shr32 (Z.lor (Z.land s (not32 (shl32 (Z.ones k) sh))) (shl32 v sh)) sh)
         (Z.ones k) = v.
Proof.
  intros Hk Hsh Hks Hv.
  rewrite <- (land_ones_small k v Hk Hv) at 2.
  unfold shr32, not32, shl32, u32. bits.
Qed.

(** The write leaves every bit outside the field as it was. *)
Lemma field_set_outside s v k sh i :
  is_u32 s -> 0 <= k -> 0 <= sh -> k + sh <= 32 -> 0 <= v <= Z.ones k ->
  Z.testbit (shl32 (Z.ones k) sh) i = false ->
  Z.testbit (Z.lor (Z.land s (not32 (shl32 (Z.ones k) sh))) (shl32 v sh)) i
  = Z.testbit s i.
Proof.
  intros Hs Hk Hsh Hks Hv Hm.
  destruct (Z.ltb_spec i 0) as [Hneg | Hpos].
  { rewrite !Z.testbit_neg_r by lia. reflexivity. }
  rewrite <- (land_ones_small k v Hk Hv).
  as_u32 s Hs.
  revert Hm. unfold not32, shl32, u32.
  rewrite Z.lor_spec, Z.land_spec.
  rewrite !Z.testbit_mod_pow2 by lia.
  rewrite Z.lnot_spec by lia.
  rewrite Z.testbit_mod_pow2 by lia.
  rewrite !Z.shiftl_spec by lia.
  rewrite Z.land_spec.
  intros Hm. destruct (i <? 32); simpl in *.
  - rewrite Hm. btauto.
  - reflexivity.
Qed.

(** C5. For a field [(bits, shift)] of the catalogue and a value that fits
    it, [_setSignatureData] followed by [_getSignatureData] gives the value
    back; the signature bits outside the field's mask and the other three
    words of the operand are unchanged. *)
Theorem setSignatureData_getSignatureData (o : Operand) (value bits shift : Z) :
  valid o ->
  In (bits, shift) Operand_.catalogue ->
  0 <= value <= bits ->
  Operand_._getSignatureData
    (Operand_._setSignatureData o value bits shift) bits shift = value /\
  (forall i, Z.testbit (shl32 bits shift) i = false ->
             Z.testbit (signature (Operand_._setSignatureData o value bits shift)) i
             = Z.testbit (signature o) i) /\
  id (Operand_._setSignatureData o value bits shift) = id o /\
  p32_2 (Operand_._setSignatureData o value bits shift) = p32_2 o /\
  p32_3 (Operand_._setSignatureData o value bits shift) = p32_3 o.
Proof.
  intros (Hs & _) Hin Hv.
  destruct (catalogue_shape bits shift Hin) as (k & -> & Hk & Hsh & Hks).
  unfold Operand_._getSignatureData, Operand_._setSignatureData. simpl.
  split; [| split; [| repeat split]].
  - apply field_get_set; assumption.
  - intros i Hi. apply field_set_outside; assumption.
Qed.

Lemma setSignatureData_getSignatureData_witness :
  Operand_._getSignatureData
    (Operand_._setSignatureData Mem.Mem_default 5 0x1F 3) 0x1F 3 = 5.
Proof.
  refine (proj1 (setSignatureData_getSignatureData Mem.Mem_default 5 0x1F 3 _ _ _)).
  - by_eval.
  - simpl. right. left. reflexivity.
  - lia.
Defined.

(* ------------------------------------------------------------------------ *)
(** ** Physical and virtual register ids                                     *)
(* ------------------------------------------------------------------------ *)

(** C2, at the input where it fails: a register operand with id 255 is not a
    physical register, neither for [Operand_::isPhysReg] nor for
    [Reg::isPhysReg]. *)
Lemma isPhysReg_id_255_counterexample :
  Operand_.isReg (Samples.gpd 255) = true /\
  id (Samples.gpd 255) = 255 /\
  Operand_.isPhysReg (Samples.gpd 255) = false /\
  Reg.isPhysReg (Samples.gpd 255) = false.
Proof. repeat split. Qed.

(** C2, amended. A register operand with id 255 (the [kIdBad] sentinel) is
    neither physical nor virtual; a register operand with id 256 is virtual
    and not physical.  Both hold for the checks of [Operand_] and of [Reg]. *)
Theorem isPhysReg_isVirtReg_boundary (r : Operand) :
  Operand_.isReg r = true ->
  (id r = 255 ->
   Operand_.isPhysReg r = false /\ Operand_.isVirtReg r = false /\
   Reg.isPhysReg r = false /\ Reg.isVirtReg r = false) /\
  (id r = 256 ->
   Operand_.isPhysReg r = false /\ Operand_.isVirtReg r = true /\
   Reg.isPhysReg r = false /\ Reg.isVirtReg r = true).
Proof.
  intros Hr.
  unfold Operand_.isPhysReg, Operand_.isVirtReg, Reg.isPhysReg, Reg.isVirtReg.
  rewrite Hr. split; intros ->; repeat split.
Qed.

Lemma isPhysReg_isVirtReg_boundary_witness :
  (Operand_.isPhysReg (Samples.gpd 255) = false /\
   Operand_.isVirtReg (Samples.gpd 255) = false /\
   Reg.isPhysReg (Samples.gpd 255) = false /\
   Reg.isVirtReg (Samples.gpd 255) = false) /\
  (Operand_.isPhysReg (Samples.gpd 256) = false /\
   Operand_.isVirtReg (Samples.gpd 256) = true /\
   Reg.isPhysReg (Samples.gpd 256) = false /\
   Reg.isVirtReg (Samples.gpd 256) = true).
Proof.
  split.
  - apply (proj1 (isPhysReg_isVirtReg_boundary (Samples.gpd 255) eq_refl)).
    reflexivity.
  - apply (proj2 (isPhysReg_isVirtReg_boundary (Samples.gpd 256) eq_refl)).
    reflexivity.
Defined.

(** C9. [Reg::isPhysReg] and [Reg::isVirtReg] depend on the id word alone,
    whatever the type tag says: the default [Reg], with signature and id 0,
    is not a register operand and not valid, yet [Reg::isPhysReg] holds
    for it ([Operand_::isPhysReg], which does look at the tag, does not). *)
Theorem Reg_isPhysReg_ignores_tag :
  (forall r r' : Operand,
      id r = id r' ->
      Reg.isPhysReg r = Reg.isPhysReg r' /\ Reg.isVirtReg r = Reg.isVirtReg r') /\
  (forall r : Operand,
      Reg.isPhysReg r = (id r <? 255) /\ Reg.isVirtReg r = (255 <? id r)) /\
  signature Reg.Reg_default = 0 /\
  id Reg.Reg_default = 0 /\
  Operand_.isReg Reg.Reg_default = false /\
  Reg.isPhysReg Reg.Reg_default = true /\
  Reg.isValid Reg.Reg_default = false /\
  Operand_.isPhysReg Reg.Reg_default = false.
Proof.
  split; [| split; [| repeat split]].
  - intros r r' E. unfold Reg.isPhysReg, Reg.isVirtReg. rewrite E. split; reflexivity.
  - intros r. split; reflexivity.
Qed.

Lemma Reg_isPhysReg_ignores_tag_witness :
  Reg.isPhysReg (Samples.gpd 7) = Reg.isPhysReg (Label.Label_of_id 7).
Proof.
  apply (proj1 (proj1 Reg_isPhysReg_ignores_tag (Samples.gpd 7) (Label.Label_of_id 7)
                  eq_refl)).
Defined.

(* ------------------------------------------------------------------------ *)
(** ** The none operand and equality                                         *)
(* ------------------------------------------------------------------------ *)

Lemma p64_0_eq a b :
  valid a -> valid b ->
  _p64_0 a = _p64_0 b <-> signature a = signature b /\ id a = id b.
Proof.
  intros (Ha & _) (Hb & _). unfold _p64_0. split.
  - intros E. apply pack_inj in E; assumption.
  - intros [-> ->]. reflexivity.
Qed.

Lemma p64_1_eq a b :
  valid a -> valid b ->
  _p64_1 a = _p64_1 b <-> p32_2 a = p32_2 b /\ p32_3 a = p32_3 b.
Proof.
  intros (_ & _ & Ha & _) (_ & _ & Hb & _). unfold _p64_1. split.
  - intros E. apply pack_inj in E; assumption.
  - intros [-> ->]. reflexivity.
Qed.

Lemma isEqual_spec a b :
  valid a -> valid b -> (Operand_.isEqual a b = true <-> a = b).
Proof.
  intros Ha Hb. unfold Operand_.isEqual.
  rewrite andb_true_iff, !Z.eqb_eq, (p64_0_eq a b Ha Hb), (p64_1_eq a b Ha Hb).
  destruct a, b; simpl. split.
  - intros [[-> ->] [-> ->]]. reflexivity.
  - intros E. injection E as -> -> -> ->. auto.
Qed.

(** C6, at the input where it fails: [Operand(Globals::Init, 0, 1, 0, 0)]
    satisfies [isNone] and is not the zero-filled record. *)
Lemma isNone_not_zero_filled_counterexample :
  Operand_.isNone Samples.zero_signature_id1 = true /\
  Samples.zero_signature_id1 <> Init 0 0 0 0 /\
  Operand_.isEqual Samples.zero_signature_id1 (Init 0 0 0 0) = false.
Proof.
  split; [reflexivity | split; [| reflexivity]].
  intros E. discriminate E.
Qed.

(** C6, amended. The default [Operand] is the zero-filled record, equal to
    it under [isEqual], and [isNone] holds for it.  Conversely [isNone]
    holds exactly for the operands whose signature word is zero: such an
    operand has none of the four kinds, and it is the zero-filled record as
    soon as its other three words are zero as well. *)
Theorem isNone_default_and_zero_signature :
  Operand_.Operand_default = Init 0 0 0 0 /\
  Operand_.isEqual Operand_.Operand_default (Init 0 0 0 0) = true /\
  Operand_.isNone Operand_.Operand_default = true /\
  (forall o : Operand, Operand_.isNone o = true <-> signature o = 0) /\
  (forall o : Operand,
      Operand_.isNone o = true ->
      Operand_.isReg o = false /\ Operand_.isMem o = false /\
      Operand_.isImm o = false /\ Operand_.isLabel o = false) /\
  (forall o : Operand,
      Operand_.isNone o = true ->
      id o = 0 -> p32_2 o = 0 -> p32_3 o = 0 ->
      o = Init 0 0 0 0).
Proof.
  split; [reflexivity |]. split; [reflexivity |]. split; [reflexivity |].
  split; [| split].
  - intros o. unfold Operand_.isNone. apply Z.eqb_eq.
  - intros o H. apply Z.eqb_eq in H.
    unfold Operand_.isReg, Operand_.isMem, Operand_.isImm, Operand_.isLabel,
      Operand_.getOp, Operand_._getSignatureData.
    rewrite H. repeat split.
  - intros [s i p2 p3] H. apply Z.eqb_eq in H. simpl in *.
    intros -> -> ->. rewrite H. reflexivity.
Qed.

Lemma isNone_default_and_zero_signature_witness :
  Operand_.isReg Samples.zero_signature_id1 = false /\
  Operand_.reset Samples.zero_signature_id1 = Init 0 0 0 0.
Proof.
  destruct isNone_default_and_zero_signature as (_ & _ & _ & _ & Hk & Hz).
  split.
  - apply (Hk Samples.zero_signature_id1). reflexivity.
  - apply (Hz (Operand_.reset Samples.zero_signature_id1)); reflexivity.
Defined.

(** C7. [isEqual] compares all four words and [isSame] the first two; on
    operands whose words 2 and 3 are zero, [isSame] and [isEqual] agree.
    Nothing here needs the operands to be of register kind. *)
Theorem isSame_iff_isEqual (a b : Operand) :
  valid a -> valid b ->
  (p32_2 a = 0 -> p32_3 a = 0 -> p32_2 b = 0 -> p32_3 b = 0 ->
   (Reg.isSame a b = true <-> Operand_.isEqual a b = true)) /\
  (Operand_.isEqual a b = true <->
   signature a = signature b /\ id a = id b /\
   p32_2 a = p32_2 b /\ p32_3 a = p32_3 b) /\
  (Reg.isSame a b = true <-> signature a = signature b /\ id a = id b).
Proof.
  intros Ha Hb.
  assert (Hsame : Reg.isSame a b = true <-> signature a = signature b /\ id a = id b).
  { unfold Reg.isSame. rewrite Z.eqb_eq. apply p64_0_eq; assumption. }
  assert (Heq : Operand_.isEqual a b = true <->
                signature a = signature b /\ id a = id b /\
                p32_2 a = p32_2 b /\ p32_3 a = p32_3 b).
  { unfold Operand_.isEqual.
    rewrite andb_true_iff, !Z.eqb_eq, (p64_0_eq a b Ha Hb), (p64_1_eq a b Ha Hb).
    tauto. }
  split; [| split; assumption].
  intros A2 A3 B2 B3. rewrite Hsame, Heq, A2, A3, B2, B3. tauto.
Qed.

Lemma isSame_iff_isEqual_witness :
  Reg.isSame (Samples.gpd 3) (Samples.gpd 3) = true <->
  Operand_.isEqual (Samples.gpd 3) (Samples.gpd 3) = true.
Proof.
  refine (proj1 (isSame_iff_isEqual (Samples.gpd 3) (Samples.gpd 3) _ _) _ _ _ _);
    first [reflexivity | by_eval].
Defined.

(* ------------------------------------------------------------------------ *)
(** ** Calling-convention dispatch                                           *)
(* ------------------------------------------------------------------------ *)

(** C4. When no compiled-in family recognizes [ccId], [CallConv::init]
    returns [kErrorInvalidArgument] and the descriptor is what [reset()]
    made of it: nothing is stored after the reset. *)
Theorem init_unrecognized (B : CallConv.Build) (self : CallConv.Descriptor B)
    (ccId : Z) :
  CallConv.recognized B ccId = false ->
  CallConv.init B self ccId
  = (CallConv.kErrorInvalidArgument B, CallConv.reset B self).
Proof.
  unfold CallConv.recognized, CallConv.init, CallConv.DebugUtils_errored.
  intros H. apply orb_false_iff in H. destruct H as [-> ->]. reflexivity.
Qed.

Lemma init_unrecognized_witness :
  CallConv.init CallConv.x86_only 5 33 = (3, 0).
Proof.
  apply (init_unrecognized CallConv.x86_only 5 33). reflexivity.
Defined.

(* ------------------------------------------------------------------------ *)
(** ** Immediates                                                            *)
(* ------------------------------------------------------------------------ *)

(** The two halves of a 64-bit payload, put back together. *)
Lemma halves_rejoin x :
  Z.lor (u32 (u64 x)) (Z.shiftl (u32 (Z.shiftr (u64 x) 32)) 32) = u64 x.
Proof. unfold u32, u64. bits. Qed.

Lemma i64_u64 x : is_i64 x -> i64 (u64 x) = x.
Proof.
  unfold is_i64, i64, u64. intros H.
  rewrite Zplus_mod_idemp_l. rewrite Z.mod_small; lia.
Qed.

Lemma i64_range x : is_i64 (i64 x).
Proof.
  unfold is_i64, i64. pose proof (Z.mod_pos_bound (x + 2 ^ 63) (2 ^ 64)). lia.
Qed.

Lemma getInt64_Imm_of v : is_i64 v -> Imm.getInt64 (Imm.Imm_of v) = v.
Proof.
  intros H. unfold Imm.getInt64, Imm.value_i64, Imm.value_u64, _p64_1, Imm.Imm_of.
  fields. unfold IntUtils.unpackU32At0, IntUtils.unpackU32At1.
  rewrite halves_rejoin. apply i64_u64. exact H.
Qed.

(** C8. [isInt8], [isInt16] and [isInt32] hold exactly when the stored
    signed 64-bit value lies in the signed range of that width; an immediate
    built from a 64-bit value stores that value; 127 passes [isInt8], 128 and
    -129 fail [isInt8] and pass [isInt16].  The queries are [const] members,
    here functions from the operand to [bool], so they return no new operand
    state. *)
Theorem isInt_ranges (o : Operand) (v : Z) :
  is_i64 v ->
  (Imm.isInt8 o = true <-> -128 <= Imm.getInt64 o <= 127) /\
  (Imm.isInt16 o = true <-> -32768 <= Imm.getInt64 o <= 32767) /\
  (Imm.isInt32 o = true <-> -2147483648 <= Imm.getInt64 o <= 2147483647) /\
  is_i64 (Imm.getInt64 o) /\
  Imm.getInt64 (Imm.Imm_of v) = v /\
  Imm.isInt8 (Imm.Imm_of 127) = true /\
  Imm.isInt8 (Imm.Imm_of 128) = false /\
  Imm.isInt16 (Imm.Imm_of 128) = true /\
  Imm.isInt8 (Imm.Imm_of (-129)) = false /\
  Imm.isInt16 (Imm.Imm_of (-129)) = true.
Proof.
  intros Hv.
  split; [| split; [| split; [| split; [| split]]]].
  - unfold Imm.isInt8, Imm.getInt64, IntUtils.isInt8.
    rewrite andb_true_iff, !Z.leb_le. tauto.
  - unfold Imm.isInt16, Imm.getInt64, IntUtils.isInt16.
    rewrite andb_true_iff, !Z.leb_le. tauto.
  - unfold Imm.isInt32, Imm.getInt64, IntUtils.isInt32.
    rewrite andb_true_iff, !Z.leb_le. tauto.
  - apply i64_range.
  - apply (getInt64_Imm_of v Hv).
  - repeat split; vm_compute; reflexivity.
Qed.

Lemma isInt_ranges_witness :
  Imm.getInt64 (Imm.Imm_of (-129)) = -129 /\
  (Imm.isInt16 (Imm.Imm_of 128) = true <->
   -32768 <= Imm.getInt64 (Imm.Imm_of 128) <= 32767).
Proof.
  assert (H : is_i64 (-129)) by by_eval.
  destruct (isInt_ranges (Imm.Imm_of 128) (-129) H) as (_ & H16 & _ & _ & Hget & _).
  split; [exact Hget | exact H16].
Defined.

(* ------------------------------------------------------------------------ *)
(** ** Memory operands: the offset                                           *)
(* ------------------------------------------------------------------------ *)

Lemma hasBase_getBaseType m :
  valid m -> Mem.hasBase m = negb (Mem.getBaseType m =? 0).
Proof.
  intros (Hs & _). unfold Mem.hasBase, Mem.getBaseType, Operand_._getSignatureData.
  f_equal.
  change Operand_.kSignatureMemBaseTypeMask with (Z.shiftl 0x1F 3).
  change Operand_.kSignatureMemBaseTypeBits with (Z.ones 5).
  change Operand_.kSignatureMemBaseTypeShift with 3.
  change 0x1F with (Z.ones 5). unfold shr32.
  assert (E : Z.land (signature m) (Z.shiftl (Z.ones 5) 3)
              = Z.shiftl (Z.land (Z.shiftr (signature m) 3) (Z.ones 5)) 3) by bits.
  rewrite E.
  destruct (Z.eqb_spec (Z.land (Z.shiftr (signature m) 3) (Z.ones 5)) 0) as [-> | Hne].
  - reflexivity.
  - apply Z.eqb_neq. intros H0. apply Hne.
    apply Z.shiftl_eq_0_iff in H0; [exact H0 | lia].
Qed.

Lemma setOffset_signature m v : signature (Mem.setOffset m v) = signature m.
Proof. reflexivity. Qed.

Lemma setOffset_isOffset64Bit m v :
  Mem.isOffset64Bit (Mem.setOffset m v) = Mem.isOffset64Bit m.
Proof. reflexivity. Qed.

Lemma low_word v : u32 (Z.land (u64 v) 0xFFFFFFFF) = v mod 2 ^ 32.
Proof. change 0xFFFFFFFF with (Z.ones 32). unfold u32, u64. bits. Qed.

Lemma offset64_rejoin v hi_old :
  Z.lor (u64 (u32 (Z.land (u64 v) 0xFFFFFFFF)))
        (u64 (Z.shiftl
                (u64 (Z.lor (Z.land (u32 (Z.shiftr (u64 v) 32)) 0xFFFFFFFF)
                            (Z.land hi_old (not32 0xFFFFFFFF))))
                32))
  = u64 v.
Proof.
  change (not32 0xFFFFFFFF) with 0. rewrite Z.land_0_r, Z.lor_0_r.
  change 0xFFFFFFFF with (Z.ones 32). unfold u32, u64. bits.
Qed.

Lemma i32_range x : - 2 ^ 31 <= i32 x < 2 ^ 31.
Proof. unfold i32. pose proof (Z.mod_pos_bound (x + 2 ^ 31) (2 ^ 32)). lia. Qed.

(** C1. In absolute-address mode (base type 0), [setOffset(v)] then
    [getOffset()] returns [v] for every signed 64-bit [v], the high half going
    to the base/id word and the low half to the displacement word.  With a
    base present (base type not 0, which is what [hasBase] tests, see
    [hasBase_getBaseType]), [setOffset(v)] stores the low 32 bits of [v] in the
    displacement word and leaves the base/id word alone; [getOffset()] then
    returns the sign-extension of those 32 bits: the one value of the signed
    32-bit range that agrees with [v] modulo 2^32, which is [v] itself when
    [v] is in that range, so the high 32 bits of [v] are discarded. *)
Theorem setOffset_getOffset (m : Operand) (v : Z) :
  valid m -> is_i64 v ->
  (Mem.getBaseType m = 0 ->
   Mem.getOffset (Mem.setOffset m v) = v /\
   Mem.base (Mem.setOffset m v) = u64 v / 2 ^ 32 /\
   Mem.offsetLo32 (Mem.setOffset m v) = v mod 2 ^ 32) /\
  (Mem.getBaseType m <> 0 ->
   Mem.offsetLo32 (Mem.setOffset m v) = v mod 2 ^ 32 /\
   Mem.base (Mem.setOffset m v) = Mem.base m /\
   Mem.getOffset (Mem.setOffset m v) = i32 (v mod 2 ^ 32) /\
   - 2 ^ 31 <= Mem.getOffset (Mem.setOffset m v) < 2 ^ 31 /\
   Mem.getOffset (Mem.setOffset m v) mod 2 ^ 32 = v mod 2 ^ 32 /\
   (- 2 ^ 31 <= v < 2 ^ 31 -> Mem.getOffset (Mem.setOffset m v) = v)).
Proof.
  intros (Hs & Hb & Hi & Ho) Hv. split.
  - intros H0.
    assert (H64 : Mem.isOffset64Bit m = true)
      by (unfold Mem.isOffset64Bit; rewrite H0; reflexivity).
    split; [| split].
    + unfold Mem.getOffset. rewrite setOffset_isOffset64Bit, H64.
      unfold Mem.offset64, Mem.setOffset. rewrite H64. fields.
      change (IntUtils.maskFromBool true) with 0xFFFFFFFF.
      rewrite offset64_rejoin. apply i64_u64. exact Hv.
    + unfold Mem.setOffset. rewrite H64. fields.
      change (IntUtils.maskFromBool true) with 0xFFFFFFFF.
      change (not32 0xFFFFFFFF) with 0. rewrite Z.land_0_r, Z.lor_0_r.
      change 0xFFFFFFFF with (Z.ones 32). rewrite Z.land_ones by lia.
      unfold u32. rewrite Z.mod_mod by lia.
      rewrite Z.shiftr_div_pow2 by lia. apply Z.mod_small.
      unfold u64. pose proof (Z.mod_pos_bound v (2 ^ 64)).
      split; [apply Z.div_pos; lia | apply Z.div_lt_upper_bound; lia].
    + unfold Mem.setOffset. fields. apply low_word.
  - intros Hn.
    assert (H64 : Mem.isOffset64Bit m = false)
      by (unfold Mem.isOffset64Bit; apply Z.eqb_neq; exact Hn).
    assert (E : Mem.getOffset (Mem.setOffset m v) = i32 (v mod 2 ^ 32)).
    { unfold Mem.getOffset. rewrite setOffset_isOffset64Bit, H64.
      unfold Mem.setOffset. fields. rewrite low_word.
      apply i64_small. pose proof (i32_range (v mod 2 ^ 32)). unfold is_i64. lia. }
    split; [| split; [| split; [| split; [| split]]]].
    + unfold Mem.setOffset. fields. apply low_word.
    + unfold Mem.setOffset. rewrite H64. fields.
      change (IntUtils.maskFromBool false) with 0.
      change (not32 0) with (Z.ones 32).
      rewrite Z.land_0_r, Z.lor_0_l, Z.land_ones by lia.
      apply Z.mod_small. exact Hb.
    + exact E.
    + rewrite E. apply i32_range.
    + rewrite E. unfold i32. rewrite Zminus_mod_idemp_l.
      replace (v mod 2 ^ 32 + 2 ^ 31 - 2 ^ 31) with (v mod 2 ^ 32) by lia.
      apply Z.mod_mod. lia.
    + intros Hr. rewrite E. unfold i32. rewrite Zplus_mod_idemp_l.
      rewrite Z.mod_small; lia.
Qed.

Lemma setOffset_getOffset_witness :
  Mem.getOffset (Mem.setOffset Samples.mem_absolute 0x100000000) = 0x100000000 /\
  Mem.getOffset (Mem.setOffset Samples.mem_based 0x100000000) = 0 /\
  Mem.getOffset (Mem.setOffset Samples.mem_based 0xFFFFFFFF) = -1 /\
  Mem.getOffset (Mem.setOffset Samples.mem_based (-8)) = -8.
Proof.
  assert (Ha : valid Samples.mem_absolute) by by_eval.
  assert (Hb : valid Samples.mem_based) by by_eval.
  assert (Hn : Mem.getBaseType Samples.mem_based <> 0)
    by (vm_compute; intro H; discriminate H).
  assert (V1 : is_i64 0x100000000) by by_eval.
  assert (V2 : is_i64 0xFFFFFFFF) by by_eval.
  assert (V3 : is_i64 (-8)) by by_eval.
  split; [| split; [| split]].
  - apply (proj1 (setOffset_getOffset Samples.mem_absolute 0x100000000 Ha V1)).
    reflexivity.
  - destruct (proj2 (setOffset_getOffset Samples.mem_based 0x100000000 Hb V1) Hn)
      as (_ & _ & E & _).
    exact (eq_trans E eq_refl).
  - destruct (proj2 (setOffset_getOffset Samples.mem_based 0xFFFFFFFF Hb V2) Hn)
      as (_ & _ & E & _).
    exact (eq_trans E eq_refl).
  - destruct (proj2 (setOffset_getOffset Samples.mem_based (-8) Hb V3) Hn)
      as (_ & _ & _ & _ & _ & E).
    apply E. lia.
Defined.

(* ------------------------------------------------------------------------ *)
(** ** Memory operands: the type tag                                         *)
(* ------------------------------------------------------------------------ *)

Lemma getOp_unfold o : Operand_.getOp o = Z.land (Z.shiftr (signature o) 0) (Z.ones 3).
Proof. reflexivity. Qed.

(** A field written at bit 3 or above leaves the three tag bits alone,
    whatever the value and the width. *)
Lemma tag_after_set s v b sh :
  3 <= sh ->
  Z.land (Z.shiftr (Z.lor (Z.land s (not32 (shl32 b sh))) (shl32 v sh)) 0) (Z.ones 3)
  = Z.land (Z.shiftr s 0) (Z.ones 3).
Proof. intros H. unfold not32, shl32, u32. bits. Qed.

Lemma tag_after_clear s b sh :
  3 <= sh ->
  Z.land (Z.shiftr (Z.land s (not32 (shl32 b sh))) 0) (Z.ones 3)
  = Z.land (Z.shiftr s 0) (Z.ones 3).
Proof. intros H. unfold not32, shl32, u32. bits. Qed.

Lemma tag_after_or s b sh :
  3 <= sh ->
  Z.land (Z.shiftr (Z.lor s (shl32 b sh)) 0) (Z.ones 3)
  = Z.land (Z.shiftr s 0) (Z.ones 3).
Proof. intros H. unfold shl32, u32. bits. Qed.

Lemma getOp_setSignatureData o v b sh :
  3 <= sh ->
  Operand_.getOp (Operand_._setSignatureData o v b sh) = Operand_.getOp o.
Proof.
  intros H. rewrite !getOp_unfold. unfold Operand_._setSignatureData. fields.
  apply tag_after_set. exact H.
Qed.

Lemma getOp_set_id o v : Operand_.getOp (set_id o v) = Operand_.getOp o.
Proof. reflexivity. Qed.

Lemma getOp_set_p32_2 o v : Operand_.getOp (set_p32_2 o v) = Operand_.getOp o.
Proof. reflexivity. Qed.

Lemma getOp_set_p32_3 o v : Operand_.getOp (set_p32_3 o v) = Operand_.getOp o.
Proof. reflexivity. Qed.

Lemma getOp_reset o : Operand_.getOp (Mem.reset o) = Operand_.kOpMem.
Proof. reflexivity. Qed.

(** Every mutator but [reset] keeps the tag it finds; [reset] writes the
    memory tag. *)
Lemma getOp_call c o :
  Operand_.getOp (Mem.call c o)
  = match c with Mem.m_reset => Operand_.kOpMem | _ => Operand_.getOp o end.
Proof.
  destruct c; cbn [Mem.call].
  - apply getOp_reset.
  - unfold Mem._setBase, Mem.set_base. rewrite getOp_set_id.
    apply getOp_setSignatureData. by_eval.
  - unfold Mem._setIndex, Mem.set_index. rewrite getOp_set_p32_2.
    apply getOp_setSignatureData. by_eval.
  - unfold Mem.resetBase, Mem._setBase, Mem.set_base. rewrite getOp_set_id.
    apply getOp_setSignatureData. by_eval.
  - unfold Mem.resetIndex, Mem._setIndex, Mem.set_index. rewrite getOp_set_p32_2.
    apply getOp_setSignatureData. by_eval.
  - reflexivity.
  - reflexivity.
  - unfold Mem.addOffset. destruct (Mem.isOffset64Bit o); reflexivity.
  - reflexivity.
  - unfold Mem.setSize. apply getOp_setSignatureData. by_eval.
  - unfold Mem.setAddrType. apply getOp_setSignatureData. by_eval.
  - unfold Mem.resetAddrType, Operand_._clearSignatureData.
    rewrite !getOp_unfold. fields. apply tag_after_clear. by_eval.
  - unfold Mem.setRegHome. rewrite !getOp_unfold. fields.
    apply tag_after_or. by_eval.
  - unfold Mem.clearRegHome. rewrite !getOp_unfold. fields.
    change Operand_.kSignatureMemRegHomeFlag with (shl32 1 15).
    apply tag_after_clear. by_eval.
Qed.

Lemma isMem_call c o :
  Operand_.isMem o = true -> Operand_.isMem (Mem.call c o) = true.
Proof.
  unfold Operand_.isMem. intros H. rewrite getOp_call.
  destruct c; trivial.
Qed.

(** The tag is an invariant of any sequence of mutator calls. *)
Lemma isMem_calls cs : forall o,
  Operand_.isMem o = true -> Operand_.isMem (Mem.calls cs o) = true.
Proof.
  unfold Mem.calls. induction cs as [| c cs IH]; intros o H; simpl.
  - exact H.
  - apply IH. apply isMem_call. exact H.
Qed.

(** C10. Each mutating member of [Mem], called on an operand whose type tag
    is memory, returns an operand whose type tag is memory; [Mem::reset]
    gives the default memory operand, signature [kOpMem] over three zero
    words, which is not the none operand. *)
Theorem Mem_mutators_keep_tag (c : Mem.Mutator) (m : Operand) :
  Operand_.getOp m = Operand_.kOpMem ->
  Operand_.getOp (Mem.call c m) = Operand_.kOpMem /\
  Mem.reset m = Init Operand_.kOpMem 0 0 0 /\
  Mem.reset m = Mem.Mem_default /\
  Mem.reset m <> Operand_.Operand_default /\
  Operand_.isNone (Mem.reset m) = false.
Proof.
  intros H. split; [| split; [| split; [| split]]].
  - rewrite getOp_call. destruct c; trivial.
  - reflexivity.
  - reflexivity.
  - intros E. discriminate E.
  - reflexivity.
Qed.

Lemma Mem_mutators_keep_tag_witness :
  Operand_.getOp (Mem.call (Mem.m__setBase 31 7) Samples.mem_based)
  = Operand_.kOpMem.
Proof.
  apply (proj1 (Mem_mutators_keep_tag (Mem.m__setBase 31 7) Samples.mem_based
                  eq_refl)).
Defined.

(* ------------------------------------------------------------------------ *)
(** ** Packed ids and the physical/virtual split                             *)
(* ------------------------------------------------------------------------ *)

Lemma sub32_small x k : 0 <= k <= x -> is_u32 x -> sub32 x k = x - k.
Proof. unfold sub32, u32, is_u32. intros. apply Z.mod_small. lia. Qed.

Lemma sub32_borrow x k : 0 <= x < k -> k <= 2 ^ 32 -> sub32 x k = x - k + 2 ^ 32.
Proof.
  unfold sub32, u32. intros.
  rewrite <- (Z.mod_add (x - k) 1 (2 ^ 32)) by lia. apply Z.mod_small. lia.
Qed.

Lemma isPackedId_above_255 x :
  is_u32 x -> (Operand_.isPackedId x = true <-> 256 <= x).
Proof.
  intros Hx. unfold Operand_.isPackedId. rewrite kPackedIdCount_value.
  change (u32 0xFFFFFF00) with 0xFFFFFF00.
  unfold Operand_.kPackedIdMin. rewrite Z.ltb_lt.
  pose proof Hx as Hx'. unfold is_u32 in Hx'.
  destruct (Z.lt_ge_cases x 256) as [Hlt | Hge].
  - rewrite sub32_borrow by lia. lia.
  - rewrite sub32_small by (assumption || lia). lia.
Qed.

(** X1. On 32-bit ids [isPackedId] is exactly the range test
    [kPackedIdMin <= id <= kPackedIdMax], although it is computed with one
    wrapping subtraction and one comparison. *)
Theorem isPackedId_range (x : Z) :
  is_u32 x ->
  (Operand_.isPackedId x = true <->
   Operand_.kPackedIdMin <= x <= Operand_.kPackedIdMax).
Proof.
  intros Hx. rewrite (isPackedId_above_255 x Hx).
  unfold Operand_.kPackedIdMin, Operand_.kPackedIdMax. unfold is_u32 in Hx. lia.
Qed.

Lemma isPackedId_range_witness :
  Operand_.isPackedId 256 = true <->
  Operand_.kPackedIdMin <= 256 <= Operand_.kPackedIdMax.
Proof. apply (isPackedId_range 256). by_eval. Defined.

(** X2. For an operand with a 32-bit id, [Reg::isVirtReg] holds exactly when
    the id is a packed id; [Reg::isPhysReg] and [Reg::isVirtReg] never hold
    together, and both fail only at the id [kIdBad]. *)
Theorem isVirtReg_isPackedId (r : Operand) :
  is_u32 (id r) ->
  Reg.isVirtReg r = Operand_.isPackedId (id r) /\
  Reg.isPhysReg r && Reg.isVirtReg r = false /\
  (Reg.isPhysReg r || Reg.isVirtReg r = false <-> id r = Reg.kIdBad).
Proof.
  intros Hr. unfold Reg.isVirtReg, Reg.isPhysReg, Reg.kIdBad. split; [| split].
  - destruct (Z.ltb_spec 255 (id r)) as [H | H]; symmetry.
    + apply (isPackedId_above_255 (id r) Hr). lia.
    + destruct (Operand_.isPackedId (id r)) eqn:E; [| reflexivity].
      apply (isPackedId_above_255 (id r) Hr) in E. lia.
  - destruct (Z.ltb_spec (id r) 255), (Z.ltb_spec 255 (id r)); try reflexivity. lia.
  - destruct (Z.ltb_spec (id r) 255), (Z.ltb_spec 255 (id r)); simpl;
      split; intros; try discriminate; lia.
Qed.

Lemma isVirtReg_isPackedId_witness :
  Reg.isVirtReg (Samples.gpd 256) = Operand_.isPackedId 256.
Proof.
  refine (proj1 (isVirtReg_isPackedId (Samples.gpd 256) _)). by_eval.
Defined.

(* ------------------------------------------------------------------------ *)
(** ** Signature fields: masks, clearing, overwriting, neighbours            *)
(* ------------------------------------------------------------------------ *)

Lemma mask_test_is_field_test s k sh :
  0 <= k -> 0 <= sh -> k + sh <= 32 ->
  (Z.land s (shl32 (Z.ones k) sh) =? 0)
  = (Z.land (shr32 s sh) (Z.ones k) =? 0).
Proof.
  intros Hk Hsh Hks.
  assert (E : Z.land s (shl32 (Z.ones k) sh)
              = Z.shiftl (Z.land (shr32 s sh) (Z.ones k)) sh).
  { unfold shl32, shr32, u32. bits. }
  rewrite E.
  destruct (Z.eqb_spec (Z.land (shr32 s sh) (Z.ones k)) 0) as [-> | Hne].
  - rewrite Z.shiftl_0_l. reflexivity.
  - apply Z.eqb_neq. intros H0. apply Hne.
    apply Z.shiftl_eq_0_iff in H0; [exact H0 | lia].
Qed.

(** X3. For every field of the catalogue, testing the signature against the
    field's mask ([_hasSignatureData], as [hasSize], [hasAddrType],
    [isRegHome], [hasBase], [hasIndex] and [hasBaseOrIndex] do) agrees with
    extracting the field and comparing it with zero. *)
Theorem hasSignatureData_getSignatureData (o : Operand) (bits shift : Z) :
  In (bits, shift) Operand_.catalogue ->
  Operand_._hasSignatureData o (shl32 bits shift)
  = negb (Operand_._getSignatureData o bits shift =? 0).
Proof.
  intros Hin.
  destruct (catalogue_shape bits shift Hin) as (k & -> & Hk & Hsh & Hks).
  unfold Operand_._hasSignatureData, Operand_._getSignatureData.
  f_equal. apply mask_test_is_field_test; assumption.
Qed.

Lemma hasSignatureData_getSignatureData_witness :
  Operand_.hasSize (Samples.gpd 3) = negb (Operand_.getSize (Samples.gpd 3) =? 0).
Proof.
  apply (hasSignatureData_getSignatureData (Samples.gpd 3) 0xFF 24).
  simpl. do 8 right. left. reflexivity.
Defined.

(** X4. For every field of the catalogue, [_clearSignatureData] is
    [_setSignatureData] of the value 0, and the field reads 0 afterwards. *)
Theorem clearSignatureData_is_set_zero (o : Operand) (bits shift : Z) :
  In (bits, shift) Operand_.catalogue ->
  Operand_._clearSignatureData o bits shift
  = Operand_._setSignatureData o 0 bits shift /\
  Operand_._getSignatureData (Operand_._clearSignatureData o bits shift) bits shift
  = 0.
Proof.
  intros Hin.
  destruct (catalogue_shape bits shift Hin) as (k & -> & Hk & Hsh & Hks).
  unfold Operand_._clearSignatureData, Operand_._setSignatureData,
    Operand_._getSignatureData. fields. split.
  - f_equal. replace (shl32 0 shift) with 0.
    + rewrite Z.lor_0_r. reflexivity.
    + unfold shl32. rewrite Z.shiftl_0_l. reflexivity.
  - unfold shr32, not32, shl32, u32. bits.
Qed.

Lemma clearSignatureData_is_set_zero_witness :
  Mem.resetAddrType Samples.mem_based = Mem.setAddrType Samples.mem_based 0.
Proof.
  refine (proj1 (clearSignatureData_is_set_zero Samples.mem_based 0x03 13 _)).
  simpl. do 6 right. left. reflexivity.
Defined.

(** X5. Writing a field twice keeps the last value only: for a field of
    the catalogue and a first value that fits it, the first write leaves no
    trace once the second is made. *)
Theorem setSignatureData_overwrite (o : Operand) (v1 v2 bits shift : Z) :
  In (bits, shift) Operand_.catalogue ->
  0 <= v1 <= bits ->
  Operand_._setSignatureData (Operand_._setSignatureData o v1 bits shift)
    v2 bits shift
  = Operand_._setSignatureData o v2 bits shift.
Proof.
  intros Hin Hv.
  destruct (catalogue_shape bits shift Hin) as (k & -> & Hk & Hsh & Hks).
  unfold Operand_._setSignatureData. fields. unfold set_signature. fields.
  f_equal. rewrite <- (land_ones_small k v1 Hk Hv).
  unfold not32, shl32, u32. bits.
Qed.

Lemma setSignatureData_overwrite_witness :
  Mem.setSize (Mem.setSize Samples.mem_based 4) 8 = Mem.setSize Samples.mem_based 8.
Proof.
  apply (setSignatureData_overwrite Samples.mem_based 4 8 0xFF 24).
  - simpl. do 8 right. left. reflexivity.
  - lia.
Defined.

Lemma catalogue_shape_pos bits shift :
  In (bits, shift) Operand_.catalogue ->
  exists k, bits = Z.ones k /\ 0 < k /\ 0 <= shift /\ k + shift <= 32.
Proof.
  intros H. destruct (catalogue_shape bits shift H) as (k & E & Hk & Hs & Hks).
  exists k. repeat split; try assumption.
  destruct (Z.eq_dec k 0) as [-> | Hne]; [| lia].
  exfalso. cbv in H.
  repeat (destruct H as [H | H]; [injection H as <- <-; discriminate E |]).
  contradiction.
Qed.

Lemma testbit_field_mask k sh i :
  0 <= k -> 0 <= sh -> k + sh <= 32 -> sh <= i < sh + k ->
  Z.testbit (shl32 (Z.ones k) sh) i = true.
Proof.
  intros Hk Hsh Hks Hi. unfold shl32, u32.
  rewrite Z.testbit_mod_pow2 by lia.
  rewrite Z.shiftl_spec by lia.
  rewrite Z.testbit_ones_nonneg by lia.
  rewrite (proj2 (Z.ltb_lt i 32)) by lia.
  rewrite (proj2 (Z.ltb_lt (i - sh) k)) by lia. reflexivity.
Qed.

(** Two fields whose masks share no bit occupy separate bit ranges. *)
Lemma masks_disjoint k1 s1 k2 s2 :
  0 < k1 -> 0 <= s1 -> k1 + s1 <= 32 ->
  0 < k2 -> 0 <= s2 -> k2 + s2 <= 32 ->
  Z.land (shl32 (Z.ones k1) s1) (shl32 (Z.ones k2) s2) = 0 ->
  s1 + k1 <= s2 \/ s2 + k2 <= s1.
Proof.
  intros Hk1 Hs1 Hks1 Hk2 Hs2 Hks2 H0.
  destruct (Z.le_gt_cases (s1 + k1) s2) as [H | H1]; [left; exact H |].
  destruct (Z.le_gt_cases (s2 + k2) s1) as [H | H2]; [right; exact H |].
  exfalso.
  assert (Hb : Z.testbit (Z.land (shl32 (Z.ones k1) s1) (shl32 (Z.ones k2) s2))
                 (Z.max s1 s2) = true).
  { rewrite Z.land_spec, !testbit_field_mask by lia. reflexivity. }
  rewrite H0, Z.bits_0 in Hb. discriminate Hb.
Qed.

(** A write to one field is not seen by a read of a field in a separate
    bit range. *)
Lemma field_get_other s v k1 s1 k2 s2 :
  0 <= k1 -> 0 <= s1 -> k1 + s1 <= 32 ->
  0 <= k2 -> 0 <= s2 -> k2 + s2 <= 32 ->
  s1 + k1 <= s2 \/ s2 + k2 <= s1 ->
  0 <= v <= Z.ones k1 ->
  Z.land (shr32 (Z.lor (Z.land s (not32 (shl32 (Z.ones k1) s1))) (shl32 v s1)) s2)
         (Z.ones k2)
  = Z.land (shr32 s s2) (Z.ones k2).
Proof.
  intros Hk1 Hs1 Hks1 Hk2 Hs2 Hks2 Hd Hv.
  rewrite <- (land_ones_small k1 v Hk1 Hv).
  unfold shr32, not32, shl32, u32.
  destruct Hd as [Hd | Hd]; bits.
Qed.

(** X6. Field isolation between getters and setters: for two fields of the
    catalogue whose masks share no bit, writing a fitting value to the first
    with [_setSignatureData] leaves what [_getSignatureData] reads from the
    second unchanged. *)
Theorem setSignatureData_other_field (o : Operand) (v b1 s1 b2 s2 : Z) :
  In (b1, s1) Operand_.catalogue ->
  In (b2, s2) Operand_.catalogue ->
  Z.land (shl32 b1 s1) (shl32 b2 s2) = 0 ->
  0 <= v <= b1 ->
  Operand_._getSignatureData (Operand_._setSignatureData o v b1 s1) b2 s2
  = Operand_._getSignatureData o b2 s2.
Proof.
  intros H1 H2 Hd Hv.
  destruct (catalogue_shape_pos b1 s1 H1) as (k1 & -> & Hk1 & Hs1 & Hks1).
  destruct (catalogue_shape_pos b2 s2 H2) as (k2 & -> & Hk2 & Hs2 & Hks2).
  unfold Operand_._getSignatureData, Operand_._setSignatureData. fields.
  apply field_get_other; try lia.
  apply masks_disjoint; assumption.
Qed.

Lemma setSignatureData_other_field_witness :
  Mem.getIndexType (Mem.setSize Samples.mem_based 8)
  = Mem.getIndexType Samples.mem_based.
Proof.
  apply (setSignatureData_other_field Samples.mem_based 8 0xFF 24 0x1F 8).
  - simpl. do 8 right. left. reflexivity.
  - simpl. do 4 right. left. reflexivity.
  - reflexivity.
  - lia.
Defined.

(* ------------------------------------------------------------------------ *)
(** ** Memory operands: components                                           *)
(* ------------------------------------------------------------------------ *)

Lemma get_set_same o v k sh :
  0 <= k -> 0 <= sh -> k + sh <= 32 -> 0 <= v <= Z.ones k ->
  Operand_._getSignatureData (Operand_._setSignatureData o v (Z.ones k) sh)
    (Z.ones k) sh = v.
Proof.
  intros. unfold Operand_._getSignatureData, Operand_._setSignatureData. fields.
  apply field_get_set; assumption.
Qed.

Lemma get_set_other o v k1 s1 k2 s2 :
  0 <= k1 -> 0 <= s1 -> k1 + s1 <= 32 ->
  0 <= k2 -> 0 <= s2 -> k2 + s2 <= 32 ->
  s1 + k1 <= s2 \/ s2 + k2 <= s1 ->
  0 <= v <= Z.ones k1 ->
  Operand_._getSignatureData (Operand_._setSignatureData o v (Z.ones k1) s1)
    (Z.ones k2) s2
  = Operand_._getSignatureData o (Z.ones k2) s2.
Proof.
  intros. unfold Operand_._getSignatureData, Operand_._setSignatureData. fields.
  apply field_get_other; assumption.
Qed.

Lemma has_set_other o v k1 s1 k2 s2 :
  0 <= k1 -> 0 <= s1 -> k1 + s1 <= 32 ->
  0 <= k2 -> 0 <= s2 -> k2 + s2 <= 32 ->
  s1 + k1 <= s2 \/ s2 + k2 <= s1 ->
  0 <= v <= Z.ones k1 ->
  Operand_._hasSignatureData (Operand_._setSignatureData o v (Z.ones k1) s1)
    (shl32 (Z.ones k2) s2)
  = Operand_._hasSignatureData o (shl32 (Z.ones k2) s2).
Proof.
  intros. unfold Operand_._hasSignatureData.
  rewrite !mask_test_is_field_test by assumption.
  f_equal. f_equal.
  apply (get_set_other o v k1 s1 k2 s2); assumption.
Qed.

(** The fields of a memory signature, as widths and shifts. *)
Ltac mem_fields :=
  unfold Mem.getBaseType, Mem.getIndexType, Mem.getAddrType, Mem.isRegHome,
    Operand_.getSize, Mem.getBaseAndIndexTypes,
    Mem._setBase, Mem._setIndex, Mem.setSize, Mem.setAddrType,
    Mem.set_base, Mem.set_index, Mem.getBaseId, Mem.getIndexId,
    Mem.base, Mem.index, Mem.offsetLo32;
  change Operand_.kSignatureMemBaseTypeBits with (Z.ones 5);
  change Operand_.kSignatureMemBaseTypeShift with 3;
  change Operand_.kSignatureMemIndexTypeBits with (Z.ones 5);
  change Operand_.kSignatureMemIndexTypeShift with 8;
  change Operand_.kSignatureMemBaseIndexBits with (Z.ones 10);
  change Operand_.kSignatureMemBaseIndexShift with 3;
  change Operand_.kSignatureMemAddrTypeBits with (Z.ones 2);
  change Operand_.kSignatureMemAddrTypeShift with 13;
  change Operand_.kSignatureMemRegHomeFlag with (shl32 (Z.ones 1) 15);
  change Operand_.kSignatureSizeBits with (Z.ones 8);
  change Operand_.kSignatureSizeShift with 24.

Ltac side := first [lia | by_eval].

Ltac field_step :=
  first [ apply get_set_same; side
        | apply get_set_other; side
        | apply has_set_other; side
        | reflexivity ].

Lemma get_set_id o v b sh :
  Operand_._getSignatureData (set_id o v) b sh = Operand_._getSignatureData o b sh.
Proof. reflexivity. Qed.

Lemma has_set_id o v b :
  Operand_._hasSignatureData (set_id o v) b = Operand_._hasSignatureData o b.
Proof. reflexivity. Qed.

Lemma get_set_p32_2 o v b sh :
  Operand_._getSignatureData (set_p32_2 o v) b sh = Operand_._getSignatureData o b sh.
Proof. reflexivity. Qed.

Lemma has_set_p32_2 o v b :
  Operand_._hasSignatureData (set_p32_2 o v) b = Operand_._hasSignatureData o b.
Proof. reflexivity. Qed.

Ltac parts_step :=
  unfold Mem.parts; mem_fields;
  rewrite ?get_set_id, ?has_set_id, ?get_set_p32_2, ?has_set_p32_2;
  repeat (f_equal; try field_step).

(** X7. [_setBase] and [_setIndex] with a 5-bit type store the type and the
    id of their component and change no other component of the operand:
    the other one of base and index, the address type, the home flag, the
    size and the displacement all read as before. *)
Theorem setBase_setIndex_parts (m : Operand) (rType rId : Z) :
  0 <= rType <= 31 ->
  Mem.parts (Mem._setBase m rType rId)
  = (rType, rId, Mem.getIndexType m, Mem.getIndexId m,
     Mem.getAddrType m, Mem.isRegHome m, Operand_.getSize m, Mem.offsetLo32 m) /\
  Mem.parts (Mem._setIndex m rType rId)
  = (Mem.getBaseType m, Mem.getBaseId m, rType, rId,
     Mem.getAddrType m, Mem.isRegHome m, Operand_.getSize m, Mem.offsetLo32 m).
Proof.
  intros Ht. change 31 with (Z.ones 5) in Ht. split; parts_step.
Qed.

Lemma setBase_setIndex_parts_witness :
  Mem.parts (Mem._setIndex Samples.mem_based 6 9)
  = (Mem.getBaseType Samples.mem_based, Mem.getBaseId Samples.mem_based, 6, 9,
     Mem.getAddrType Samples.mem_based, Mem.isRegHome Samples.mem_based,
     Operand_.getSize Samples.mem_based, Mem.offsetLo32 Samples.mem_based).
Proof.
  refine (proj2 (setBase_setIndex_parts Samples.mem_based 6 9 _)). lia.
Defined.

(** X8. [setSize] with a size up to 255 and [setAddrType] with an address
    type up to 3 store their field and change no other component. *)
Theorem setSize_setAddrType_parts (m : Operand) (size addrType : Z) :
  0 <= size <= 255 -> 0 <= addrType <= 3 ->
  Mem.parts (Mem.setSize m size)
  = (Mem.getBaseType m, Mem.getBaseId m, Mem.getIndexType m, Mem.getIndexId m,
     Mem.getAddrType m, Mem.isRegHome m, size, Mem.offsetLo32 m) /\
  Mem.parts (Mem.setAddrType m addrType)
  = (Mem.getBaseType m, Mem.getBaseId m, Mem.getIndexType m, Mem.getIndexId m,
     addrType, Mem.isRegHome m, Operand_.getSize m, Mem.offsetLo32 m).
Proof.
  intros Hs Ha. change 255 with (Z.ones 8) in Hs. change 3 with (Z.ones 2) in Ha.
  split; parts_step.
Qed.

Lemma setSize_setAddrType_parts_witness :
  Mem.parts (Mem.setAddrType Samples.mem_based Mem.kAddrTypeRel)
  = (Mem.getBaseType Samples.mem_based, Mem.getBaseId Samples.mem_based,
     Mem.getIndexType Samples.mem_based, Mem.getIndexId Samples.mem_based,
     Mem.kAddrTypeRel, Mem.isRegHome Samples.mem_based,
     Operand_.getSize Samples.mem_based, Mem.offsetLo32 Samples.mem_based).
Proof.
  refine (proj2 (setSize_setAddrType_parts Samples.mem_based 0 Mem.kAddrTypeRel _ _)).
  - lia.
  - unfold Mem.kAddrTypeRel. lia.
Defined.

Lemma setRegHome_as_field m :
  is_u32 (signature m) ->
  Mem.setRegHome m = Operand_._setSignatureData m 1 (Z.ones 1) 15.
Proof.
  intros Hs. unfold Mem.setRegHome, Operand_._setSignatureData. f_equal.
  change Operand_.kSignatureMemRegHomeFlag with (shl32 (Z.ones 1) 15).
  change (shl32 1 15) with (shl32 (Z.ones 1) 15).
  as_u32 (signature m) Hs.
  unfold not32, shl32, u32. bits.
Qed.

Lemma clearRegHome_as_field m :
  Mem.clearRegHome m = Operand_._setSignatureData m 0 (Z.ones 1) 15.
Proof.
  unfold Mem.clearRegHome, Operand_._setSignatureData. f_equal.
  change Operand_.kSignatureMemRegHomeFlag with (shl32 (Z.ones 1) 15).
  change (shl32 0 15) with 0. rewrite Z.lor_0_r. reflexivity.
Qed.

Lemma isRegHome_as_field m :
  Mem.isRegHome m = negb (Operand_._getSignatureData m (Z.ones 1) 15 =? 0).
Proof.
  unfold Mem.isRegHome, Operand_._hasSignatureData, Operand_._getSignatureData.
  change Operand_.kSignatureMemRegHomeFlag with (shl32 (Z.ones 1) 15).
  rewrite mask_test_is_field_test by lia. reflexivity.
Qed.

(** X9. On an operand with a 32-bit signature, [setRegHome] and
    [clearRegHome] are the writes of 1 and 0 to the one-bit home field:
    afterwards [isRegHome] is true, respectively false, every other
    component reads as before, and clearing after setting gives the same
    operand as clearing alone. *)
Theorem setRegHome_clearRegHome_parts (m : Operand) :
  is_u32 (signature m) ->
  Mem.parts (Mem.setRegHome m)
  = (Mem.getBaseType m, Mem.getBaseId m, Mem.getIndexType m, Mem.getIndexId m,
     Mem.getAddrType m, true, Operand_.getSize m, Mem.offsetLo32 m) /\
  Mem.parts (Mem.clearRegHome m)
  = (Mem.getBaseType m, Mem.getBaseId m, Mem.getIndexType m, Mem.getIndexId m,
     Mem.getAddrType m, false, Operand_.getSize m, Mem.offsetLo32 m) /\
  Mem.clearRegHome (Mem.setRegHome m) = Mem.clearRegHome m.
Proof.
  intros Hs. split; [| split].
  - unfold Mem.parts. rewrite (isRegHome_as_field (Mem.setRegHome m)).
    rewrite setRegHome_as_field by exact Hs. mem_fields.
    rewrite get_set_same by (change (Z.ones 1) with 1; lia).
    repeat (f_equal; try field_step).
  - unfold Mem.parts. rewrite (isRegHome_as_field (Mem.clearRegHome m)).
    rewrite clearRegHome_as_field. mem_fields.
    rewrite get_set_same by (change (Z.ones 1) with 1; lia).
    repeat (f_equal; try field_step).
  - rewrite (clearRegHome_as_field (Mem.setRegHome m)),
      setRegHome_as_field by exact Hs.
    rewrite clearRegHome_as_field.
    unfold Operand_._setSignatureData. fields. unfold set_signature. fields.
    f_equal. change 1 with (Z.ones 1) at 2.
    unfold not32, shl32, u32. bits.
Qed.

Lemma setRegHome_clearRegHome_parts_witness :
  Mem.clearRegHome (Mem.setRegHome Samples.mem_based)
  = Mem.clearRegHome Samples.mem_based.
Proof.
  refine (proj2 (proj2 (setRegHome_clearRegHome_parts Samples.mem_based _))).
  by_eval.
Defined.

(* ------------------------------------------------------------------------ *)
(** ** Memory operands: what kind of base, and both types at once            *)
(* ------------------------------------------------------------------------ *)

(** The masked signature is the field value moved to the field's place. *)
Lemma masked_is_field_scaled s k sh :
  0 <= k -> 0 <= sh -> k + sh <= 32 ->
  Z.land s (shl32 (Z.ones k) sh) = Z.land (shr32 s sh) (Z.ones k) * 2 ^ sh.
Proof.
  intros Hk Hsh Hks. rewrite <- Z.shiftl_mul_pow2 by lia.
  unfold shl32, shr32, u32. bits.
Qed.

Lemma field_nonneg s k sh : 0 <= k -> 0 <= Z.land (shr32 s sh) (Z.ones k).
Proof.
  intros Hk. apply Z.land_nonneg. right. rewrite Z.ones_equiv.
  pose proof (Z.pow_pos_nonneg 2 k). lia.
Qed.

Lemma field_upper s k sh : 0 <= k -> Z.land (shr32 s sh) (Z.ones k) < 2 ^ k.
Proof.
  intros Hk. rewrite Z.land_ones by lia. apply Z.mod_pos_bound.
  apply Z.pow_pos_nonneg; lia.
Qed.

Lemma base_kind_partition_aux m :
  Mem.hasBase m = negb (Mem.getBaseType m =? 0) /\
  Mem.hasIndex m = negb (Mem.getIndexType m =? 0).
Proof.
  unfold Mem.hasBase, Mem.hasIndex, Mem.getBaseType, Mem.getIndexType,
    Operand_._getSignatureData.
  change Operand_.kSignatureMemBaseTypeMask with (shl32 (Z.ones 5) 3).
  change Operand_.kSignatureMemIndexTypeMask with (shl32 (Z.ones 5) 8).
  rewrite !mask_test_is_field_test by lia. split; reflexivity.
Qed.

(** X10. The three readings of the base-type field partition memory
    operands: [isOffset64Bit] (type 0, no base), [hasBaseLabel] (type
    [kLabelTag]) and [hasBaseReg] (any type above it); [hasBase] is the
    union of the last two and the negation of the first.  The index field
    is read the same way by [hasIndex] and [hasIndexReg]. *)
Theorem base_kind_partition (m : Operand) :
  Mem.hasBase m = negb (Mem.getBaseType m =? 0) /\
  Mem.hasBaseLabel m = (Mem.getBaseType m =? Label.kLabelTag) /\
  Mem.hasBaseReg m = (Label.kLabelTag <? Mem.getBaseType m) /\
  Mem.isOffset64Bit m = negb (Mem.hasBase m) /\
  Mem.hasBase m = Mem.hasBaseLabel m || Mem.hasBaseReg m /\
  Mem.hasBaseLabel m && Mem.hasBaseReg m = false /\
  Mem.hasIndex m = negb (Mem.getIndexType m =? 0) /\
  Mem.hasIndexReg m = (Label.kLabelTag <? Mem.getIndexType m).
Proof.
  pose proof (field_nonneg (signature m) 5 3 ltac:(lia)) as Hb.
  pose proof (field_nonneg (signature m) 5 8 ltac:(lia)) as Hi.
  unfold Mem.hasBase, Mem.hasBaseLabel, Mem.hasBaseReg, Mem.isOffset64Bit,
    Mem.hasIndex, Mem.hasIndexReg, Mem.getBaseType, Mem.getIndexType,
    Operand_._getSignatureData, Label.kLabelTag.
  change Operand_.kSignatureMemBaseTypeMask with (shl32 (Z.ones 5) 3).
  change Operand_.kSignatureMemIndexTypeMask with (shl32 (Z.ones 5) 8).
  change Operand_.kSignatureMemBaseTypeBits with (Z.ones 5).
  change Operand_.kSignatureMemIndexTypeBits with (Z.ones 5).
  change Operand_.kSignatureMemBaseTypeShift with 3.
  change Operand_.kSignatureMemIndexTypeShift with 8.
  change (shl32 1 3) with 8. change (shl32 1 8) with 256.
  rewrite !masked_is_field_scaled by lia.
  set (bt := Z.land (shr32 (signature m) 3) (Z.ones 5)) in *.
  set (it := Z.land (shr32 (signature m) 8) (Z.ones 5)) in *.
  change (2 ^ 3) with 8. change (2 ^ 8) with 256.
  repeat split;
    repeat match goal with
           | |- context [?a =? ?b] => destruct (Z.eqb_spec a b)
           | |- context [?a <? ?b] => destruct (Z.ltb_spec a b)
           end; simpl; try reflexivity; lia.
Qed.

(** X11. [getBaseAndIndexTypes] reads both 5-bit types in one piece, the
    base type in its low five bits and the index type above; accordingly
    [hasBaseOrIndex] is the disjunction and [hasBaseAndIndex] the
    conjunction of [hasBase] and [hasIndex]. *)
Theorem base_and_index_types (m : Operand) :
  Mem.getBaseAndIndexTypes m = Mem.getBaseType m + 32 * Mem.getIndexType m /\
  Mem.hasBaseOrIndex m = Mem.hasBase m || Mem.hasIndex m /\
  Mem.hasBaseAndIndex m = Mem.hasBase m && Mem.hasIndex m.
Proof.
  pose proof (field_nonneg (signature m) 5 3 ltac:(lia)) as Hb.
  pose proof (field_nonneg (signature m) 5 8 ltac:(lia)) as Hi.
  assert (E : Mem.getBaseAndIndexTypes m
              = Mem.getBaseType m + 32 * Mem.getIndexType m).
  { unfold Mem.getBaseAndIndexTypes, Mem.getBaseType, Mem.getIndexType,
      Operand_._getSignatureData, shr32.
    change Operand_.kSignatureMemBaseIndexBits with (Z.ones 10).
    change Operand_.kSignatureMemBaseTypeBits with (Z.ones 5).
    change Operand_.kSignatureMemIndexTypeBits with (Z.ones 5).
    change Operand_.kSignatureMemBaseIndexShift with 3.
    change Operand_.kSignatureMemBaseTypeShift with 3.
    change Operand_.kSignatureMemIndexTypeShift with 8.
    replace (Z.shiftr (signature m) 8) with (Z.shiftr (Z.shiftr (signature m) 3) 5)
      by (rewrite Z.shiftr_shiftr by lia; reflexivity).
    rewrite !Z.land_ones by lia. rewrite (Z.shiftr_div_pow2 _ 5) by lia.
    change (2 ^ 10) with (2 ^ 5 * 2 ^ 5). rewrite Z.rem_mul_r by lia.
    reflexivity. }
  split; [exact E |]. split; [| reflexivity].
  destruct (base_kind_partition_aux m) as (Hhb & Hhi).
  rewrite Hhb, Hhi.
  unfold Mem.hasBaseOrIndex.
  change Operand_.kSignatureMemBaseIndexMask with (shl32 (Z.ones 10) 3).
  rewrite mask_test_is_field_test by lia.
  change (Z.land (shr32 (signature m) 3) (Z.ones 10))
    with (Mem.getBaseAndIndexTypes m).
  rewrite E.
  unfold Mem.getBaseType, Mem.getIndexType, Operand_._getSignatureData.
  change Operand_.kSignatureMemBaseTypeBits with (Z.ones 5).
  change Operand_.kSignatureMemIndexTypeBits with (Z.ones 5).
  change Operand_.kSignatureMemBaseTypeShift with 3.
  change Operand_.kSignatureMemIndexTypeShift with 8.
  set (bt := Z.land (shr32 (signature m) 3) (Z.ones 5)) in *.
  set (it := Z.land (shr32 (signature m) 8) (Z.ones 5)) in *.
  repeat match goal with
         | |- context [?a =? ?b] => destruct (Z.eqb_spec a b)
         end; simpl; try reflexivity; lia.
Qed.

(* ------------------------------------------------------------------------ *)
(** ** Memory operands: reading and moving the offset                        *)
(* ------------------------------------------------------------------------ *)

Lemma i64_cases x :
  0 <= x < 2 ^ 64 -> i64 x = if x <? 2 ^ 63 then x else x - 2 ^ 64.
Proof.
  intros H. unfold i64. destruct (Z.ltb_spec x (2 ^ 63)).
  - rewrite Z.mod_small; lia.
  - rewrite <- (Z.mod_add (x + 2 ^ 63) (-1) (2 ^ 64)) by lia.
    rewrite Z.mod_small; lia.
Qed.

Lemma i32_cases x :
  is_u32 x -> i32 x = if x <? 2 ^ 31 then x else x - 2 ^ 32.
Proof.
  unfold is_u32. intros H. unfold i32. destruct (Z.ltb_spec x (2 ^ 31)).
  - rewrite Z.mod_small; lia.
  - rewrite <- (Z.mod_add (x + 2 ^ 31) (-1) (2 ^ 32)) by lia.
    rewrite Z.mod_small; lia.
Qed.

Lemma i64_mod32 x : i64 x mod 2 ^ 32 = x mod 2 ^ 32.
Proof.
  unfold i64. rewrite (Z.mod_eq (x + 2 ^ 63) (2 ^ 64)) by lia.
  replace (x + 2 ^ 63 - 2 ^ 64 * ((x + 2 ^ 63) / 2 ^ 64) - 2 ^ 63)
    with (x + (- 2 ^ 32 * ((x + 2 ^ 63) / 2 ^ 64)) * 2 ^ 32) by lia.
  apply Z.mod_add. lia.
Qed.

Lemma i32_mod32 x : i32 x mod 2 ^ 32 = x mod 2 ^ 32.
Proof.
  unfold i32. rewrite (Z.mod_eq (x + 2 ^ 31) (2 ^ 32)) by lia.
  replace (x + 2 ^ 31 - 2 ^ 32 * ((x + 2 ^ 31) / 2 ^ 32) - 2 ^ 31)
    with (x + (- ((x + 2 ^ 31) / 2 ^ 32)) * 2 ^ 32) by lia.
  apply Z.mod_add. lia.
Qed.

Lemma i32_congr x y : x mod 2 ^ 32 = y mod 2 ^ 32 -> i32 x = i32 y.
Proof.
  intros E. unfold i32.
  rewrite <- (Zplus_mod_idemp_l x), <- (Zplus_mod_idemp_l y), E. reflexivity.
Qed.

Lemma i32_of_mod x : i32 (x mod 2 ^ 32) = i32 x.
Proof. apply i32_congr. apply Z.mod_mod. lia. Qed.

Lemma pack_sum lo hi : is_u32 lo -> Z.lor lo (Z.shiftl hi 32) = lo + hi * 2 ^ 32.
Proof.
  intros Hl.
  rewrite (Z.div_mod (Z.lor lo (Z.shiftl hi 32)) (2 ^ 32)) at 1 by lia.
  rewrite pack_lo by exact Hl.
  rewrite <- Z.shiftr_div_pow2 by lia. rewrite pack_hi by exact Hl. lia.
Qed.

(** On a valid operand the absolute address is its two words side by side. *)
Lemma offset64_valid m :
  valid m ->
  Mem.offset64 m = Mem.offsetLo32 m + Mem.base m * 2 ^ 32 /\
  0 <= Mem.offset64 m < 2 ^ 64.
Proof.
  intros (_ & Hb & _ & Ho). unfold Mem.offset64, Mem.offsetLo32, Mem.base.
  assert (E : Z.lor (u64 (p32_3 m)) (u64 (Z.shiftl (u64 (id m)) 32))
              = Z.lor (p32_3 m) (Z.shiftl (id m) 32)).
  { unfold is_u32 in *. rewrite (u64_small (p32_3 m)) by lia.
    rewrite (u64_small (id m)) by lia.
    rewrite u64_small; [reflexivity |].
    rewrite Z.shiftl_mul_pow2 by lia. lia. }
  rewrite E. split.
  - apply pack_sum. exact Ho.
  - apply pack_range; assumption.
Qed.


(** X12. On a valid memory operand [hasOffset] holds exactly when
    [getOffset] is not zero, in absolute mode (where the high word counts)
    and with a base (where the id word is masked out of the test). *)
Theorem hasOffset_getOffset (m : Operand) :
  valid m -> Mem.hasOffset m = negb (Mem.getOffset m =? 0).
Proof.
  intros Hm. pose proof Hm as (_ & Hb & _ & Ho).
  unfold Mem.hasOffset, Mem.getOffset.
  destruct (Mem.isOffset64Bit m) eqn:E64.
  - change (IntUtils.maskFromBool true) with (Z.ones 32).
    rewrite Z.land_ones by lia. unfold u32. rewrite Z.mod_mod by lia.
    rewrite (Z.mod_small (Mem.base m)) by exact Hb.
    destruct (offset64_valid m Hm) as (Eo & Hr).
    rewrite (i64_cases _ Hr). f_equal.
    unfold Mem.offsetLo32, Mem.base, is_u32 in *.
    destruct (Z.eqb_spec (Z.lor (p32_3 m) (id m)) 0) as [H0 | H0].
    + apply Z.lor_eq_0_iff in H0. destruct H0 as [Hl Hh].
      rewrite Eo, Hl, Hh. reflexivity.
    + symmetry. apply Z.eqb_neq. intros H1. apply H0. apply Z.lor_eq_0_iff.
      destruct (Mem.offset64 m <? 2 ^ 63); lia.
  - change (IntUtils.maskFromBool false) with 0.
    rewrite Z.land_0_r. change (u32 0) with 0. rewrite Z.lor_0_r.
    unfold Mem.offsetLo32.
    rewrite i64_small
      by (pose proof (i32_range (p32_3 m)); unfold is_i64; lia).
    rewrite (i32_cases _ Ho). f_equal. unfold is_u32 in Ho.
    destruct (Z.eqb_spec (p32_3 m) 0) as [H0 | H0].
    + rewrite H0. reflexivity.
    + symmetry. apply Z.eqb_neq. destruct (p32_3 m <? 2 ^ 31); lia.
Qed.

Lemma hasOffset_getOffset_witness :
  Mem.hasOffset (Mem.setOffset Samples.mem_absolute 0x100000000)
  = negb (Mem.getOffset (Mem.setOffset Samples.mem_absolute 0x100000000) =? 0).
Proof.
  apply (hasOffset_getOffset (Mem.setOffset Samples.mem_absolute 0x100000000)).
  by_eval.
Defined.

Lemma hi_select_abs h b :
  Z.lor (Z.land (u32 h) (IntUtils.maskFromBool true))
        (Z.land b (not32 (IntUtils.maskFromBool true))) = u32 h.
Proof.
  change (IntUtils.maskFromBool true) with (Z.ones 32).
  change (not32 (Z.ones 32)) with 0.
  rewrite Z.land_0_r, Z.lor_0_r, Z.land_ones by lia.
  unfold u32. apply Z.mod_mod. lia.
Qed.

Lemma hi_select_based h b :
  is_u32 b ->
  Z.lor (Z.land h (IntUtils.maskFromBool false))
        (Z.land b (not32 (IntUtils.maskFromBool false))) = b.
Proof.
  intros Hb. change (IntUtils.maskFromBool false) with 0.
  change (not32 0) with (Z.ones 32).
  rewrite Z.land_0_r, Z.lor_0_l, Z.land_ones by lia.
  apply Z.mod_small. exact Hb.
Qed.

(** What [setOffset] stores, by mode. *)
Lemma setOffset_words m v :
  valid m ->
  Mem.offsetLo32 (Mem.setOffset m v) = v mod 2 ^ 32 /\
  Mem.base (Mem.setOffset m v)
  = (if Mem.isOffset64Bit m then u32 (Z.shiftr (u64 v) 32) else Mem.base m) /\
  signature (Mem.setOffset m v) = signature m /\
  Mem.index (Mem.setOffset m v) = Mem.index m.
Proof.
  intros (_ & Hb & _). unfold Mem.setOffset. fields.
  split; [apply low_word |]. split; [| split; reflexivity].
  destruct (Mem.isOffset64Bit m).
  - apply hi_select_abs.
  - apply hi_select_based. exact Hb.
Qed.

Lemma setOffset_valid m v : valid m -> valid (Mem.setOffset m v).
Proof.
  intros Hm. destruct (setOffset_words m v Hm) as (El & Eb & Es & Ei).
  pose proof Hm as (Hs & Hb & Hi & Ho).
  unfold Mem.offsetLo32, Mem.base, Mem.index in *.
  unfold valid. rewrite El, Eb, Es, Ei.
  split; [exact Hs |].
  split; [destruct (Mem.isOffset64Bit m); [apply u32_range | exact Hb] |].
  split; [exact Hi |].
  unfold is_u32. apply Z.mod_pos_bound. lia.
Qed.

Lemma u32_u64 v : u32 (u64 v) = v mod 2 ^ 32.
Proof. unfold u32, u64. bits. Qed.

Lemma rejoin_words v :
  v mod 2 ^ 32 + u32 (Z.shiftr (u64 v) 32) * 2 ^ 32 = u64 v.
Proof.
  rewrite <- pack_sum by (unfold is_u32; apply Z.mod_pos_bound; lia).
  rewrite <- u32_u64. apply halves_rejoin.
Qed.

Lemma getOffset_setOffset m v :
  valid m -> is_i64 v ->
  Mem.getOffset (Mem.setOffset m v)
  = if Mem.isOffset64Bit m then v else i32 (v mod 2 ^ 32).
Proof.
  intros Hm Hv.
  destruct (setOffset_words m v Hm) as (El & Eb & _ & _).
  pose proof (setOffset_valid m v Hm) as Hm'.
  unfold Mem.getOffset. rewrite setOffset_isOffset64Bit.
  destruct (Mem.isOffset64Bit m).
  - destruct (offset64_valid _ Hm') as (-> & _).
    rewrite El, Eb, rejoin_words. apply i64_u64. exact Hv.
  - rewrite El. apply i64_small.
    pose proof (i32_range (v mod 2 ^ 32)). unfold is_i64. lia.
Qed.

(** X13. For a signed 64-bit [d] and a valid operand whose offset plus [d]
    does not overflow the signed 64-bit range, [addOffset(d)] stores what
    [setOffset] stores for that sum.  So in absolute mode [getOffset()] is
    then the sum itself; with a base present, where the addition is done on
    the unsigned displacement word and cannot overflow, [getOffset()] is the
    one value of the signed 32-bit range that agrees with the sum modulo
    2^32, which is the sum itself when it is in that range. *)
Theorem addOffset_is_setOffset (m : Operand) (d : Z) :
  valid m -> is_i64 d ->
  (is_i64 (Mem.getOffset m + d) ->
   Mem.addOffset m d = Mem.setOffset m (Mem.getOffset m + d)) /\
  (Mem.isOffset64Bit m = true -> is_i64 (Mem.getOffset m + d) ->
   Mem.getOffset (Mem.addOffset m d) = Mem.getOffset m + d) /\
  (Mem.isOffset64Bit m = false ->
   - 2 ^ 31 <= Mem.getOffset (Mem.addOffset m d) < 2 ^ 31 /\
   Mem.getOffset (Mem.addOffset m d) mod 2 ^ 32
   = (Mem.getOffset m + d) mod 2 ^ 32 /\
   Mem.base (Mem.addOffset m d) = Mem.base m /\
   (- 2 ^ 31 <= Mem.getOffset m + d < 2 ^ 31 ->
    Mem.getOffset (Mem.addOffset m d) = Mem.getOffset m + d)).
Proof.
  intros Hm Hd.
  assert (E : Mem.addOffset m d = Mem.setOffset m (i64 (Mem.getOffset m + d))).
  { pose proof Hm as (_ & Hb & _).
    unfold Mem.addOffset, Mem.setOffset, Mem.getOffset.
    destruct (Mem.isOffset64Bit m); fields.
    - rewrite hi_select_abs. rewrite (Z.add_comm d). reflexivity.
    - rewrite hi_select_based by exact Hb.
      rewrite !low_word. unfold add32, u32.
      rewrite Zplus_mod_idemp_r.
      replace (i64 (i64 (i32 (Mem.offsetLo32 m)) + d) mod 2 ^ 32)
        with ((Mem.offsetLo32 m + d) mod 2 ^ 32).
      + destruct m; reflexivity.
      + rewrite i64_mod32, <- (Zplus_mod_idemp_l (i64 _)), i64_mod32, i32_mod32,
          Zplus_mod_idemp_l. reflexivity. }
  assert (G : Mem.getOffset (Mem.addOffset m d)
              = if Mem.isOffset64Bit m then i64 (Mem.getOffset m + d)
                else i32 (Mem.getOffset m + d)).
  { rewrite E, getOffset_setOffset by (exact Hm || apply i64_range).
    destruct (Mem.isOffset64Bit m); [reflexivity |].
    rewrite i32_of_mod. apply i32_congr. apply i64_mod32. }
  split; [| split].
  - intros Hr. rewrite E, (i64_small _ Hr). reflexivity.
  - intros H64 Hr. rewrite G, H64. apply i64_small. exact Hr.
  - intros H64. rewrite G, H64.
    split; [apply i32_range |]. split; [apply i32_mod32 |]. split.
    + unfold Mem.addOffset. rewrite H64. reflexivity.
    + intros Hr. unfold i32. rewrite Z.mod_small; lia.
Qed.

Lemma addOffset_is_setOffset_witness :
  Mem.getOffset (Mem.addOffset (Mem.setOffset Samples.mem_absolute 0x100000000) (-1))
  = 0xFFFFFFFF /\
  Mem.getOffset (Mem.addOffset Samples.mem_based (-8)) = -8.
Proof.
  assert (Ha : valid (Mem.setOffset Samples.mem_absolute 0x100000000)) by by_eval.
  assert (Hb : valid Samples.mem_based) by by_eval.
  assert (D1 : is_i64 (-1)) by by_eval.
  assert (D8 : is_i64 (-8)) by by_eval.
  split.
  - refine (eq_trans
              (proj1 (proj2 (addOffset_is_setOffset
                               (Mem.setOffset Samples.mem_absolute 0x100000000)
                               (-1) Ha D1)) eq_refl _) eq_refl).
    by_eval.
  - destruct (proj2 (proj2 (addOffset_is_setOffset Samples.mem_based (-8) Hb D8))
                eq_refl) as (_ & _ & _ & H).
    refine (eq_trans (H _) eq_refl). by_eval.
Defined.

(** X14. The 32-bit forms work on the displacement word alone:
    [setOffsetLo32] then [getOffsetLo32] gives the value back as an
    [int32_t], [addOffsetLo32] adds modulo 2^32, neither touches the base/id
    word, and with a base present [addOffset] is [addOffsetLo32]. *)
Theorem offsetLo32_ops (m : Operand) (v d : Z) :
  Mem.getOffsetLo32 (Mem.setOffsetLo32 m v) = i32 v /\
  (- 2 ^ 31 <= v < 2 ^ 31 -> Mem.getOffsetLo32 (Mem.setOffsetLo32 m v) = v) /\
  Mem.getOffsetLo32 (Mem.addOffsetLo32 m d) = i32 (Mem.getOffsetLo32 m + d) /\
  Mem.base (Mem.setOffsetLo32 m v) = Mem.base m /\
  Mem.base (Mem.addOffsetLo32 m d) = Mem.base m /\
  (Mem.isOffset64Bit m = false -> Mem.addOffset m d = Mem.addOffsetLo32 m d).
Proof.
  assert (E1 : Mem.getOffsetLo32 (Mem.setOffsetLo32 m v) = i32 v).
  { unfold Mem.getOffsetLo32, Mem.setOffsetLo32. fields. apply i32_of_mod. }
  split; [exact E1 |]. split; [| split; [| split; [| split]]].
  - intros Hv. rewrite E1. unfold i32. rewrite Z.mod_small; lia.
  - unfold Mem.getOffsetLo32, Mem.addOffsetLo32. fields.
    unfold add32, u32. rewrite i32_of_mod. apply i32_congr.
    rewrite Zplus_mod_idemp_r, <- Zplus_mod_idemp_l.
    rewrite <- (Zplus_mod_idemp_l (i32 (p32_3 m))), i32_mod32. reflexivity.
  - reflexivity.
  - reflexivity.
  - intros H. unfold Mem.addOffset, Mem.addOffsetLo32. rewrite H.
    rewrite low_word. reflexivity.
Qed.

Lemma offsetLo32_ops_witness :
  Mem.getOffsetLo32 (Mem.setOffsetLo32 Samples.mem_based (-8)) = -8 /\
  Mem.addOffset Samples.mem_based 12 = Mem.addOffsetLo32 Samples.mem_based 12.
Proof.
  destruct (offsetLo32_ops Samples.mem_based (-8) 12) as (_ & H1 & _ & _ & _ & H2).
  split; [apply H1; lia | apply H2; reflexivity].
Defined.



(* ------------------------------------------------------------------------ *)
(** ** Memory operands: the constructor                                      *)
(* ------------------------------------------------------------------------ *)

(** The fields of the signature [Mem(Globals::Init, ...)] assembles, with
    every argument written as the bits it may occupy. *)
Lemma Mem_of_signature_fields sgn bt it size flags :
  sgn = Z.lor (Z.lor (Z.lor (Z.lor (Z.shiftl (Z.ones 1) 1)
                                   (shl32 (Z.land bt (Z.ones 5)) 3))
                            (shl32 (Z.land it (Z.ones 5)) 8))
                     (shl32 (Z.land size (Z.ones 8)) 24))
              (Z.land flags (Z.shiftl (Z.ones 11) 13)) ->
  Z.land (shr32 sgn 0) (Z.ones 3) = 2 /\
  Z.land (shr32 sgn 3) (Z.ones 5) = Z.land bt (Z.ones 5) /\
  Z.land (shr32 sgn 8) (Z.ones 5) = Z.land it (Z.ones 5) /\
  Z.land (shr32 sgn 13) (Z.ones 2) = Z.land (shr32 flags 13) (Z.ones 2) /\
  Z.land (shr32 sgn 15) (Z.ones 1) = Z.land (shr32 flags 15) (Z.ones 1) /\
  Z.land (shr32 sgn 24) (Z.ones 8) = Z.land size (Z.ones 8).
Proof.
  intros ->. unfold shr32, shl32, u32.
  split; [| split; [| split; [| split; [| split]]]].
  - change 2 with (Z.shiftl (Z.ones 1) 1). bits.
  - bits.
  - bits.
  - bits.
  - bits.
  - bits.
Qed.

(** X16. The constructor [Mem(Globals::Init, baseType, baseId, indexType,
    indexId, off, size, flags)] builds a memory operand whose components
    read back the arguments, when the two types fit five bits, the size
    eight, and [flags] stays within bits 13 to 23 (address type, home flag
    and the eight bits left to the architecture). *)
Theorem Mem_of_parts (baseType baseId indexType indexId off size flags : Z) :
  0 <= baseType <= 31 -> 0 <= indexType <= 31 -> 0 <= size <= 255 ->
  Z.land flags 0x00FFE000 = flags ->
  Operand_.getOp (Mem.Mem_of baseType baseId indexType indexId off size flags)
  = Operand_.kOpMem /\
  Mem.parts (Mem.Mem_of baseType baseId indexType indexId off size flags)
  = (baseType, baseId, indexType, indexId,
     Z.land (shr32 flags 13) 3,
     negb (Z.land flags Operand_.kSignatureMemRegHomeFlag =? 0),
     size, u32 off).
Proof.
  intros Hb Hi Hs Hf.
  change 31 with (Z.ones 5) in Hb, Hi. change 255 with (Z.ones 8) in Hs.
  change 0x00FFE000 with (Z.shiftl (Z.ones 11) 13) in Hf.
  pose proof (Mem_of_signature_fields
                (signature (Mem.Mem_of baseType baseId indexType indexId off size flags))
                baseType indexType size flags) as H.
  rewrite (land_ones_small 5 baseType), (land_ones_small 5 indexType),
    (land_ones_small 8 size), Hf in H by lia.
  specialize (H eq_refl). destruct H as (H0 & H3 & H8 & H13 & H15 & H24).
  split; [exact H0 |].
  unfold Mem.parts. rewrite isRegHome_as_field.
  change Operand_.kSignatureMemRegHomeFlag with (shl32 (Z.ones 1) 15).
  rewrite mask_test_is_field_test by lia.
  mem_fields. unfold Operand_._getSignatureData.
  rewrite H3, H8, H13, H15, H24. reflexivity.
Qed.

Lemma Mem_of_parts_witness :
  Mem.parts (Mem.Mem_of 6 3 6 1 (-16) 8 0x2000)
  = (6, 3, 6, 1, 1, false, 8, 4294967280).
Proof.
  refine (proj2 (Mem_of_parts 6 3 6 1 (-16) 8 0x2000 _ _ _ _));
    first [lia | reflexivity].
Defined.

(* ------------------------------------------------------------------------ *)
(** ** Registers: signatures, type and group tests                           *)
(* ------------------------------------------------------------------------ *)

Lemma kSignature_fields_raw sgn t g s :
  sgn = Z.lor (Z.lor (Z.lor (shl32 (Z.ones 1) 0)
                            (shl32 (Z.land t (Z.ones 5)) 3))
                     (shl32 (Z.land g (Z.ones 4)) 8))
              (shl32 (Z.land s (Z.ones 8)) 24) ->
  Z.land (shr32 sgn 0) (Z.ones 3) = 1 /\
  Z.land (shr32 sgn 3) (Z.ones 5) = Z.land t (Z.ones 5) /\
  Z.land (shr32 sgn 8) (Z.ones 4) = Z.land g (Z.ones 4) /\
  Z.land (shr32 sgn 24) (Z.ones 8) = Z.land s (Z.ones 8).
Proof.
  intros ->. unfold shr32, shl32, u32.
  split; [| split; [| split]].
  - transitivity (Z.ones 1); [bits | reflexivity].
  - bits.
  - bits.
  - bits.
Qed.

(** X17. The signature [ASMJIT_DEFINE_REG_TRAITS] computes from a type up
    to 31, a group up to 15 and a size up to 255 decodes to exactly these:
    a register built from it is a valid register operand whose [getType],
    [getGroup], [getSize] and [getId] return the type, group, size and id,
    and [RegInfo] reads the same values from the signature word. *)
Theorem kSignature_decodes (kType kGroup kSize rId : Z) :
  0 <= kType <= 31 -> 0 <= kGroup <= 15 -> 0 <= kSize <= 255 ->
  Operand_.isReg (Reg.Reg_of (Reg.kSignature kType kGroup kSize) rId) = true /\
  Reg.isValid (Reg.Reg_of (Reg.kSignature kType kGroup kSize) rId) = true /\
  Reg.getType (Reg.Reg_of (Reg.kSignature kType kGroup kSize) rId) = kType /\
  Reg.getGroup (Reg.Reg_of (Reg.kSignature kType kGroup kSize) rId) = kGroup /\
  Operand_.getSize (Reg.Reg_of (Reg.kSignature kType kGroup kSize) rId) = kSize /\
  Operand_.getId (Reg.Reg_of (Reg.kSignature kType kGroup kSize) rId) = rId /\
  RegInfo.getOp (Reg.kSignature kType kGroup kSize) = Operand_.kOpReg /\
  RegInfo.getType (Reg.kSignature kType kGroup kSize) = kType /\
  RegInfo.getGroup (Reg.kSignature kType kGroup kSize) = kGroup /\
  RegInfo.getSize (Reg.kSignature kType kGroup kSize) = kSize.
Proof.
  intros Ht Hg Hs.
  change 31 with (Z.ones 5) in Ht. change 15 with (Z.ones 4) in Hg.
  change 255 with (Z.ones 8) in Hs.
  pose proof (kSignature_fields_raw (Reg.kSignature kType kGroup kSize)
                kType kGroup kSize) as H.
  rewrite (land_ones_small 5 kType), (land_ones_small 4 kGroup),
    (land_ones_small 8 kSize) in H by lia.
  specialize (H eq_refl). destruct H as (H0 & H3 & H8 & H24).
  assert (Hop : Operand_.getOp (Reg.Reg_of (Reg.kSignature kType kGroup kSize) rId) = 1)
    by exact H0.
  assert (Hne : Reg.kSignature kType kGroup kSize <> 0).
  { intros E. rewrite E in H0. discriminate H0. }
  split; [unfold Operand_.isReg; rewrite Hop; reflexivity |].
  split; [unfold Reg.isValid, Reg.Reg_of; fields;
          apply negb_true_iff; apply Z.eqb_neq; exact Hne |].
  repeat split; assumption.
Qed.

Lemma kSignature_decodes_witness :
  Reg.getType (Samples.gpd 3) = Reg.kRegGp32 /\
  Operand_.getSize (Samples.gpd 3) = 4.
Proof.
  assert (H1 : 0 <= Reg.kRegGp32 <= 31) by by_eval.
  assert (H2 : 0 <= Reg.kGroupGp <= 15) by by_eval.
  assert (H3 : 0 <= 4 <= 255) by lia.
  destruct (kSignature_decodes Reg.kRegGp32 Reg.kGroupGp 4 3 H1 H2 H3)
    as (_ & _ & Ht & _ & Hs & _).
  split; [exact Ht | exact Hs].
Defined.

(** A low part below [2^k] and a part shifted by [k] add up. *)
Lemma lor_shiftl_sum a b k :
  0 <= k -> 0 <= a < 2 ^ k -> Z.lor a (Z.shiftl b k) = a + b * 2 ^ k.
Proof.
  intros Hk Ha.
  assert (El : Z.lor a (Z.shiftl b k) mod 2 ^ k = a).
  { rewrite <- (Z.mod_small a (2 ^ k)) by exact Ha. bits. }
  assert (Eh : Z.shiftr (Z.lor a (Z.shiftl b k)) k = b).
  { rewrite <- (Z.mod_small a (2 ^ k)) by exact Ha. bits. }
  pose proof (Z.pow_pos_nonneg 2 k ltac:(lia) Hk).
  rewrite (Z.div_mod (Z.lor a (Z.shiftl b k)) (2 ^ k)) at 1 by lia.
  rewrite El, <- Z.shiftr_div_pow2, Eh by lia. lia.
Qed.

(** The low byte of a signature is the tag and the type side by side; the
    tag and the group are read through the mask 0xF07. *)
Lemma tag_and_type s :
  Z.land s 0xFF
  = Z.land (shr32 s 0) (Z.ones 3) + Z.land (shr32 s 3) (Z.ones 5) * 2 ^ 3.
Proof.
  rewrite <- lor_shiftl_sum.
  - change 0xFF with (Z.ones 8). unfold shr32. bits.
  - lia.
  - split; [apply field_nonneg; lia | apply field_upper; lia].
Qed.

Lemma tag_and_group s :
  Z.land s 0xF07
  = Z.land (shr32 s 0) (Z.ones 3) + Z.land (shr32 s 8) (Z.ones 4) * 2 ^ 8.
Proof.
  rewrite <- lor_shiftl_sum.
  - change 0xF07 with (Z.lor (Z.ones 3) (Z.shiftl (Z.ones 4) 8)).
    unfold shr32. bits.
  - lia.
  - split; [apply field_nonneg; lia |].
    pose proof (field_upper s 3 0 ltac:(lia)). lia.
Qed.

Ltac bool_cases :=
  repeat match goal with
         | |- context [?a =? ?b] => destruct (Z.eqb_spec a b)
         | |- context [?a <? ?b] => destruct (Z.ltb_spec a b)
         end; simpl; try reflexivity; try lia.

(** X18. The mask comparisons of the register tests are field comparisons.
    For a type up to 31 and a group up to 15: [Reg::isType] holds exactly
    when [getType] is that type and [Reg::isGroup] when [getGroup] is that
    group, neither looking at the tag; [Operand_::isReg(rType)]
    additionally requires the register tag; the statics [Reg::isGp(op)] and
    [Reg::isVec(op)] require the register tag and the group, whatever the
    type and the size. *)
Theorem register_tests_are_field_tests (o : Operand) (rType group : Z) :
  0 <= rType <= 31 -> 0 <= group <= 15 ->
  Reg.isType o rType = (Reg.getType o =? rType) /\
  Reg.isGroup o group = (Reg.getGroup o =? group) /\
  Operand_.isReg_type o rType = Operand_.isReg o && (Reg.getType o =? rType) /\
  Reg.isGp_op o = Operand_.isReg o && (Reg.getGroup o =? Reg.kGroupGp) /\
  Reg.isVec_op o = Operand_.isReg o && (Reg.getGroup o =? Reg.kGroupVec).
Proof.
  intros Ht Hg.
  pose proof (field_nonneg (signature o) 3 0 ltac:(lia)) as Hop0.
  pose proof (field_upper (signature o) 3 0 ltac:(lia)) as Hop1.
  pose proof (field_nonneg (signature o) 5 3 ltac:(lia)) as Hty0.
  pose proof (field_nonneg (signature o) 4 8 ltac:(lia)) as Hgr0.
  unfold Reg.isType, Reg.isGroup, Operand_.isReg_type, Reg.isGp_op, Reg.isVec_op,
    Operand_.isReg, Operand_.getOp, Reg.getType, Reg.getGroup,
    Operand_._getSignatureData, Operand_.getSignature,
    Reg.kGroupGp, Reg.kGroupVec, Operand_.kOpReg.
  change Operand_.kSignatureRegTypeMask with (shl32 (Z.ones 5) 3).
  change Operand_.kSignatureRegGroupMask with (shl32 (Z.ones 4) 8).
  change (Z.lor Operand_.kSignatureOpMask (shl32 (Z.ones 5) 3)) with 0xFF.
  change (Z.lor Operand_.kSignatureOpMask (shl32 (Z.ones 4) 8)) with 0xF07.
  change Operand_.kSignatureOpBits with (Z.ones 3).
  change Operand_.kSignatureRegTypeBits with (Z.ones 5).
  change Operand_.kSignatureRegGroupBits with (Z.ones 4).
  change Operand_.kSignatureOpShift with 0.
  change Operand_.kSignatureRegTypeShift with 3.
  change Operand_.kSignatureRegGroupShift with 8.
  change (shl32 1 0) with 1. change (shl32 0 8) with 0. change (shl32 1 8) with 256.
  rewrite !masked_is_field_scaled by lia.
  rewrite tag_and_type, tag_and_group.
  assert (E3 : shl32 rType 3 = rType * 2 ^ 3).
  { unfold shl32, u32. rewrite Z.shiftl_mul_pow2 by lia. apply Z.mod_small. lia. }
  assert (E8 : shl32 group 8 = group * 2 ^ 8).
  { unfold shl32, u32. rewrite Z.shiftl_mul_pow2 by lia. apply Z.mod_small. lia. }
  assert (El : Z.lor 1 (shl32 rType 3) = 1 + rType * 2 ^ 3).
  { rewrite E3, <- (lor_shiftl_sum 1 rType 3) by lia.
    rewrite Z.shiftl_mul_pow2 by lia. reflexivity. }
  rewrite El, E3, E8.
  set (op := Z.land (shr32 (signature o) 0) (Z.ones 3)) in *.
  set (ty := Z.land (shr32 (signature o) 3) (Z.ones 5)) in *.
  set (gr := Z.land (shr32 (signature o) 8) (Z.ones 4)) in *.
  change (2 ^ 3) with 8 in *. change (2 ^ 8) with 256.
  change (Z.lor 1 0) with 1. change (Z.lor 1 256) with 257.
  split; [| split; [| split; [| split]]]; bool_cases.
Qed.

Lemma register_tests_are_field_tests_witness :
  Reg.isGp_op (Samples.gpd 3)
  = Operand_.isReg (Samples.gpd 3) && (Reg.getGroup (Samples.gpd 3) =? Reg.kGroupGp).
Proof.
  assert (H1 : 0 <= 5 <= 31) by lia.
  assert (H2 : 0 <= 0 <= 15) by lia.
  destruct (register_tests_are_field_tests (Samples.gpd 3) 5 0 H1 H2)
    as (_ & _ & _ & H & _).
  exact H.
Defined.

(* ------------------------------------------------------------------------ *)
(** ** Registers: the zero upper half, and the 8-byte carrier                *)
(* ------------------------------------------------------------------------ *)

Lemma is_u32_0 : is_u32 0.
Proof. by_eval. Qed.

Lemma valid_Init s i p2 p3 :
  is_u32 s -> is_u32 i -> is_u32 p2 -> is_u32 p3 -> valid (Init s i p2 p3).
Proof. intros A B C D. exact (conj A (conj B (conj C D))). Qed.

Ltac built_case :=
  split; [apply valid_Init; first [assumption | by_eval] | split; reflexivity].

(** Whatever way a register operand is produced, it is a valid operand
    whose words 2 and 3 are zero. *)
Lemma RegBuilt_upper_zero r :
  RegBuilt r -> valid r /\ p32_2 r = 0 /\ p32_3 r = 0.
Proof.
  induction 1 as [ | sgn rId Hs Hi | other rId _ IH Hi | o sgn rId Hs Hi
                 | r k _ IH Hk | r other _ IHr _ IHo | ro Hs Hi
                 | r rId _ IH Hi | r sgn rId _ IH Hs Hi ].
  - built_case.
  - built_case.
  - destruct IH as ((Hs & _) & _). built_case.
  - built_case.
  - destruct IH as ((_ & Hi & _) & _). built_case.
  - destruct IHr as ((_ & Hi & _) & _). destruct IHo as ((Hs & _) & _).
    built_case.
  - built_case.
  - destruct IH as ((Hs & _ & H2 & H3) & E2 & E3).
    split; [apply valid_Init; assumption | split; assumption].
  - destruct IH as ((_ & _ & H2 & H3) & E2 & E3).
    split; [apply valid_Init; assumption | split; assumption].
Qed.

(** X19. Register operands produced by this layer ([Reg()], [Reg(signature,
    id)], [Reg(other, id)], [_initReg], both [cloneAs], [RegOnly::toReg],
    then any [setId] and [setSignatureAndId]) keep words 2 and 3 zero, so on
    them the 8-byte [isSame] and the 16-byte [isEqual] return the same
    answer, and [isSame] holds only between equal operands. *)
Theorem isSame_on_built_registers (a b : Operand) :
  RegBuilt a -> RegBuilt b ->
  Reg.isSame a b = Operand_.isEqual a b /\
  (Reg.isSame a b = true <-> a = b).
Proof.
  intros Ha Hb.
  destruct (RegBuilt_upper_zero a Ha) as (Va & A2 & A3).
  destruct (RegBuilt_upper_zero b Hb) as (Vb & B2 & B3).
  assert (E : Reg.isSame a b = Operand_.isEqual a b).
  { unfold Operand_.isEqual, Reg.isSame, _p64_1.
    rewrite A2, A3, B2, B3. rewrite andb_true_r. reflexivity. }
  split; [exact E |]. rewrite E. apply isEqual_spec; assumption.
Qed.

Lemma isSame_on_built_registers_witness :
  Reg.isSame (Reg.setId (Samples.gpd 3) 4) (Reg.cloneAs (Samples.gpd 4) Samples.gpd_signature)
  = Operand_.isEqual (Reg.setId (Samples.gpd 3) 4)
      (Reg.cloneAs (Samples.gpd 4) Samples.gpd_signature).
Proof.
  refine (proj1 (isSame_on_built_registers _ _ _ _)).
  - apply built_setId; [apply built_Reg_of |]; by_eval.
  - apply built_cloneAs; [apply built_Reg_of |]; by_eval.
Defined.

(** X20. [RegOnly] carries a register faithfully: [toReg] after [init(reg)]
    gives the register back when its words 2 and 3 are zero, [init] after
    [toReg] gives the carrier back, and the carrier answers [isNone],
    [isValid], [isPhysReg], [isVirtReg], [getType] and [getGroup] as the
    register does. *)
Theorem RegOnly_roundtrip (self ro : RegOnly.t) (r : Operand) :
  p32_2 r = 0 -> p32_3 r = 0 ->
  RegOnly.toReg (RegOnly.init_reg self r) = r /\
  RegOnly.init_reg self (RegOnly.toReg ro) = ro /\
  RegOnly.isNone (RegOnly.init_reg self r) = Operand_.isNone r /\
  RegOnly.isValid (RegOnly.init_reg self r) = Reg.isValid r /\
  RegOnly.isPhysReg (RegOnly.init_reg self r) = Reg.isPhysReg r /\
  RegOnly.isVirtReg (RegOnly.init_reg self r) = Reg.isVirtReg r /\
  RegOnly.getType (RegOnly.init_reg self r) = Reg.getType r /\
  RegOnly.getGroup (RegOnly.init_reg self r) = Reg.getGroup r /\
  RegOnly.toReg (RegOnly.reset self) = Operand_.Operand_default.
Proof.
  intros H2 H3. destruct r as [s i p2 p3], ro as [rs ri]. simpl in H2, H3.
  subst p2 p3. repeat split.
Qed.

Lemma RegOnly_roundtrip_witness :
  RegOnly.toReg (RegOnly.init_reg (RegOnly.mk 0 0) (Samples.gpd 3)) = Samples.gpd 3.
Proof.
  refine (proj1 (RegOnly_roundtrip (RegOnly.mk 0 0) (RegOnly.mk 0 0) (Samples.gpd 3)
                   _ _)); reflexivity.
Defined.

(* ------------------------------------------------------------------------ *)
(** ** Immediates: setters, getters, extension                               *)
(* ------------------------------------------------------------------------ *)

Lemma mod_pow2_mod a m n : 0 <= n <= m -> (a mod 2 ^ m) mod 2 ^ n = a mod 2 ^ n.
Proof. intros H. bits. Qed.

Lemma low_bits_of_pair lo hi n :
  0 <= n <= 32 -> Z.lor lo (Z.shiftl hi 32) mod 2 ^ n = lo mod 2 ^ n.
Proof. intros H. bits. Qed.

(** The two's complement reading at width [k], written out: it keeps the
    low [k] bits, depends on nothing else, fixes what is in range, and
    lands in range. *)
Lemma scast_mod k x :
  0 < k -> ((x + 2 ^ (k - 1)) mod 2 ^ k - 2 ^ (k - 1)) mod 2 ^ k = x mod 2 ^ k.
Proof.
  intros Hk. rewrite Zminus_mod_idemp_l. f_equal. lia.
Qed.

Lemma scast_congr k x y :
  x mod 2 ^ k = y mod 2 ^ k ->
  (x + 2 ^ (k - 1)) mod 2 ^ k - 2 ^ (k - 1)
  = (y + 2 ^ (k - 1)) mod 2 ^ k - 2 ^ (k - 1).
Proof.
  intros E. rewrite <- (Zplus_mod_idemp_l x), <- (Zplus_mod_idemp_l y), E.
  reflexivity.
Qed.

Lemma pow2_double k : 0 < k -> 2 ^ k = 2 * 2 ^ (k - 1).
Proof. intros Hk. rewrite <- Z.pow_succ_r by lia. f_equal. lia. Qed.

Lemma scast_small k x :
  0 < k -> - 2 ^ (k - 1) <= x < 2 ^ (k - 1) ->
  (x + 2 ^ (k - 1)) mod 2 ^ k - 2 ^ (k - 1) = x.
Proof.
  intros Hk Hx. pose proof (pow2_double k Hk). rewrite Z.mod_small; lia.
Qed.

Lemma scast_range k x :
  0 < k ->
  - 2 ^ (k - 1) <= (x + 2 ^ (k - 1)) mod 2 ^ k - 2 ^ (k - 1) < 2 ^ (k - 1).
Proof.
  intros Hk. pose proof (pow2_double k Hk).
  pose proof (Z.pow_pos_nonneg 2 (k - 1) ltac:(lia) ltac:(lia)).
  pose proof (Z.mod_pos_bound (x + 2 ^ (k - 1)) (2 ^ k) ltac:(lia)). lia.
Qed.

Lemma i64_modk x k : 0 <= k <= 64 -> i64 x mod 2 ^ k = x mod 2 ^ k.
Proof.
  intros Hk. rewrite <- (mod_pow2_mod (i64 x) 64 k), <- (mod_pow2_mod x 64 k) by lia.
  f_equal. apply (scast_mod 64 x). lia.
Qed.

Lemma i64_of_small x : - 2 ^ 63 <= x < 2 ^ 63 -> i64 x = x.
Proof. intros H. apply i64_small. exact H. Qed.

(** The payload after a store of [w] through the 64-bit view. *)
Lemma value_u64_stored o w : Imm.value_u64 (set_p64_1 o (u64 w)) = u64 w.
Proof.
  unfold Imm.value_u64, _p64_1, set_p64_1. fields. apply halves_rejoin.
Qed.

Lemma getInt64_stored o w : Imm.getInt64 (set_p64_1 o (u64 w)) = i64 w.
Proof.
  unfold Imm.getInt64, Imm.value_i64. rewrite value_u64_stored.
  apply (scast_congr 64). unfold u64. apply Z.mod_mod. lia.
Qed.

Lemma getInt64_modk o k :
  0 <= k <= 32 -> Imm.getInt64 o mod 2 ^ k = p32_2 o mod 2 ^ k.
Proof.
  intros Hk. unfold Imm.getInt64, Imm.value_i64, Imm.value_u64, _p64_1.
  rewrite i64_modk by lia. apply low_bits_of_pair. exact Hk.
Qed.

Lemma i32_modk x k : 0 <= k <= 32 -> i32 x mod 2 ^ k = x mod 2 ^ k.
Proof.
  intros Hk. rewrite <- (mod_pow2_mod (i32 x) 32 k), <- (mod_pow2_mod x 32 k) by lia.
  f_equal. apply i32_mod32.
Qed.

(** Every immediate setter writes words 2 and 3 only. *)
Lemma set_p64_1_head o w :
  signature (set_p64_1 o w) = signature o /\ id (set_p64_1 o w) = id o.
Proof. split; reflexivity. Qed.

(** X21. The immediate setters store their argument widened to 64 bits:
    [setInt8/16/32/64] store the two's complement reading of the argument
    at that width (so a value in range is stored as it is, negative ones
    with all upper bits set), [setUInt8/16/32/64] store the argument
    reduced to that width (so a value in range is stored as it is, never
    negative below 64 bits); none of the eight setters touches the
    signature or the id word. *)
Theorem Imm_setters_store (o : Operand) (v : Z) :
  (Imm.getInt64 (Imm.setInt8 o v) = i8 v /\
   Imm.getInt64 (Imm.setInt16 o v) = i16 v /\
   Imm.getInt64 (Imm.setInt32 o v) = i32 v /\
   Imm.getInt64 (Imm.setInt64 o v) = i64 v /\
   Imm.getInt64 (Imm.setUInt8 o v) = u8 v /\
   Imm.getInt64 (Imm.setUInt16 o v) = u16 v /\
   Imm.getInt64 (Imm.setUInt32 o v) = u32 v /\
   Imm.getUInt64 (Imm.setUInt64 o v) = u64 v) /\
  ((- 2 ^ 7 <= v < 2 ^ 7 -> Imm.getInt64 (Imm.setInt8 o v) = v) /\
   (- 2 ^ 15 <= v < 2 ^ 15 -> Imm.getInt64 (Imm.setInt16 o v) = v) /\
   (- 2 ^ 31 <= v < 2 ^ 31 -> Imm.getInt64 (Imm.setInt32 o v) = v) /\
   (is_i64 v -> Imm.getInt64 (Imm.setInt64 o v) = v) /\
   (0 <= v < 2 ^ 8 -> Imm.getInt64 (Imm.setUInt8 o v) = v) /\
   (0 <= v < 2 ^ 16 -> Imm.getInt64 (Imm.setUInt16 o v) = v) /\
   (0 <= v < 2 ^ 32 -> Imm.getInt64 (Imm.setUInt32 o v) = v) /\
   (0 <= v < 2 ^ 64 -> Imm.getUInt64 (Imm.setUInt64 o v) = v)) /\
  (signature (Imm.setInt8 o v) = signature o /\ id (Imm.setInt8 o v) = id o) /\
  (signature (Imm.setInt16 o v) = signature o /\ id (Imm.setInt16 o v) = id o) /\
  (signature (Imm.setInt32 o v) = signature o /\ id (Imm.setInt32 o v) = id o) /\
  (signature (Imm.setInt64 o v) = signature o /\ id (Imm.setInt64 o v) = id o) /\
  (signature (Imm.setUInt8 o v) = signature o /\ id (Imm.setUInt8 o v) = id o) /\
  (signature (Imm.setUInt16 o v) = signature o /\ id (Imm.setUInt16 o v) = id o) /\
  (signature (Imm.setUInt32 o v) = signature o /\ id (Imm.setUInt32 o v) = id o) /\
  (signature (Imm.setUInt64 o v) = signature o /\ id (Imm.setUInt64 o v) = id o).
Proof.
  assert (S : Imm.getInt64 (Imm.setInt8 o v) = i8 v /\
              Imm.getInt64 (Imm.setInt16 o v) = i16 v /\
              Imm.getInt64 (Imm.setInt32 o v) = i32 v /\
              Imm.getInt64 (Imm.setInt64 o v) = i64 v /\
              Imm.getInt64 (Imm.setUInt8 o v) = u8 v /\
              Imm.getInt64 (Imm.setUInt16 o v) = u16 v /\
              Imm.getInt64 (Imm.setUInt32 o v) = u32 v /\
              Imm.getUInt64 (Imm.setUInt64 o v) = u64 v).
  { unfold Imm.setInt8, Imm.setInt16, Imm.setInt32, Imm.setInt64,
      Imm.setUInt8, Imm.setUInt16, Imm.setUInt32, Imm.setUInt64,
      Imm.set_value_i64, Imm.set_value_u64, Imm.getUInt64.
    rewrite !getInt64_stored, value_u64_stored.
    pose proof (scast_range 8 v ltac:(lia)) as R8.
    pose proof (scast_range 16 v ltac:(lia)) as R16.
    pose proof (scast_range 32 v ltac:(lia)) as R32.
    pose proof (Z.mod_pos_bound v (2 ^ 8) ltac:(lia)) as U8.
    pose proof (Z.mod_pos_bound v (2 ^ 16) ltac:(lia)) as U16.
    pose proof (Z.mod_pos_bound v (2 ^ 32) ltac:(lia)) as U32.
    change (8 - 1) with 7 in R8. change (16 - 1) with 15 in R16.
    change (32 - 1) with 31 in R32.
    fold (i8 v) in R8. fold (i16 v) in R16. fold (i32 v) in R32.
    fold (u8 v) in U8. fold (u16 v) in U16. fold (u32 v) in U32.
    rewrite (u64_small (u8 v)), (u64_small (u16 v)), (u64_small (u32 v)) by lia.
    rewrite (i64_of_small (i8 v)), (i64_of_small (i16 v)), (i64_of_small (i32 v)),
      (i64_of_small (u8 v)), (i64_of_small (u16 v)), (i64_of_small (u32 v)) by lia.
    rewrite (i64_of_small (i8 v)), (i64_of_small (i16 v)), (i64_of_small (i32 v))
      by lia.
    repeat split; reflexivity. }
  split; [exact S |].
  destruct S as (S8 & S16 & S32 & S64 & T8 & T16 & T32 & T64).
  split.
  - rewrite S8, S16, S32, S64, T8, T16, T32, T64.
    split; [intros R; apply (scast_small 8); [lia | exact R] |].
    split; [intros R; apply (scast_small 16); [lia | exact R] |].
    split; [intros R; apply (scast_small 32); [lia | exact R] |].
    split; [intros R; apply i64_small; exact R |].
    split; [intros R; apply Z.mod_small; exact R |].
    split; [intros R; apply Z.mod_small; exact R |].
    split; [intros R; apply Z.mod_small; exact R |].
    intros R. apply Z.mod_small. exact R.
  - unfold Imm.setInt8, Imm.setInt16, Imm.setInt32, Imm.setInt64,
      Imm.setUInt8, Imm.setUInt16, Imm.setUInt32, Imm.setUInt64,
      Imm.set_value_i64, Imm.set_value_u64.
    repeat (split; [apply set_p64_1_head |]). apply set_p64_1_head.
Qed.

Lemma Imm_setters_store_witness :
  Imm.getInt64 (Imm.setInt8 (Imm.Imm_of 5) (-1)) = -1 /\
  Imm.getInt64 (Imm.setUInt8 (Imm.Imm_of 5) 255) = 255 /\
  Imm.getInt64 (Imm.setInt64 Imm.Imm_default (-129)) = -129.
Proof.
  destruct (Imm_setters_store (Imm.Imm_of 5) (-1)) as (_ & (H1 & _) & _).
  destruct (Imm_setters_store (Imm.Imm_of 5) 255)
    as (_ & (_ & _ & _ & _ & H2 & _) & _).
  destruct (Imm_setters_store Imm.Imm_default (-129))
    as (_ & (_ & _ & _ & H3 & _) & _).
  split; [apply H1; lia | split; [apply H2; lia | apply H3; by_eval]].
Defined.

Lemma land_low_byte x : Z.land x 0xFF = x mod 2 ^ 8.
Proof. change 0xFF with (Z.ones 8). apply Z.land_ones. lia. Qed.

Lemma land_low_half x : Z.land x 0xFFFF = x mod 2 ^ 16.
Proof. change 0xFFFF with (Z.ones 16). apply Z.land_ones. lia. Qed.

Lemma land_low_word x : Z.land x 0xFFFFFFFF = x mod 2 ^ 32.
Proof. change 0xFFFFFFFF with (Z.ones 32). apply Z.land_ones. lia. Qed.

Lemma getUInt64_is_u64 o : valid o -> Imm.getUInt64 o = u64 (Imm.getInt64 o).
Proof.
  intros (_ & _ & H2 & H3).
  unfold Imm.getUInt64, Imm.getInt64, Imm.value_i64, Imm.value_u64, _p64_1.
  pose proof (pack_range (p32_2 o) (p32_3 o) H2 H3) as R.
  unfold u64. rewrite <- (Z.mod_small _ _ R) at 1.
  symmetry. apply (scast_mod 64). lia.
Qed.

(** X22. The narrow getters truncate and reinterpret the stored 64-bit
    value: on a valid immediate [getInt8/16/32] return its two's complement
    reading at that width and [getUInt8/16/32/64] its reduction to that
    width; so a stored value within the signed range of a width is returned
    unchanged by the signed getter of that width. *)
Theorem Imm_getters_truncate (o : Operand) :
  valid o ->
  Imm.getInt8 o = i8 (Imm.getInt64 o) /\
  Imm.getInt16 o = i16 (Imm.getInt64 o) /\
  Imm.getInt32 o = i32 (Imm.getInt64 o) /\
  Imm.getUInt8 o = u8 (Imm.getInt64 o) /\
  Imm.getUInt16 o = u16 (Imm.getInt64 o) /\
  Imm.getUInt32 o = u32 (Imm.getInt64 o) /\
  Imm.getUInt64 o = u64 (Imm.getInt64 o) /\
  (- 2 ^ 7 <= Imm.getInt64 o < 2 ^ 7 -> Imm.getInt8 o = Imm.getInt64 o) /\
  (- 2 ^ 15 <= Imm.getInt64 o < 2 ^ 15 -> Imm.getInt16 o = Imm.getInt64 o) /\
  (- 2 ^ 31 <= Imm.getInt64 o < 2 ^ 31 -> Imm.getInt32 o = Imm.getInt64 o).
Proof.
  intros Hv. pose proof Hv as (_ & _ & H2 & _).
  assert (E8 : Imm.getInt8 o = i8 (Imm.getInt64 o)).
  { unfold Imm.getInt8, Imm.value_i32_lo. rewrite land_low_byte.
    apply (scast_congr 8). rewrite mod_pow2_mod by lia.
    rewrite i32_modk, getInt64_modk by lia. reflexivity. }
  assert (E16 : Imm.getInt16 o = i16 (Imm.getInt64 o)).
  { unfold Imm.getInt16, Imm.value_i32_lo. rewrite land_low_half.
    apply (scast_congr 16). rewrite mod_pow2_mod by lia.
    rewrite i32_modk, getInt64_modk by lia. reflexivity. }
  assert (E32 : Imm.getInt32 o = i32 (Imm.getInt64 o)).
  { unfold Imm.getInt32, Imm.value_i32_lo.
    apply (scast_congr 32). rewrite (getInt64_modk o 32) by lia. reflexivity. }
  split; [exact E8 |]. split; [exact E16 |]. split; [exact E32 |].
  split; [| split; [| split; [| split; [| split; [| split]]]]].
  - unfold Imm.getUInt8, Imm.value_u32_lo, u8. rewrite land_low_byte.
    rewrite Z.mod_mod, getInt64_modk by lia. reflexivity.
  - unfold Imm.getUInt16, Imm.value_u32_lo, u16. rewrite land_low_half.
    rewrite Z.mod_mod, getInt64_modk by lia. reflexivity.
  - unfold Imm.getUInt32, Imm.value_u32_lo, u32.
    rewrite (getInt64_modk o 32) by lia. symmetry. apply Z.mod_small. exact H2.
  - apply getUInt64_is_u64. exact Hv.
  - intros R. rewrite E8. apply (scast_small 8); [lia | exact R].
  - intros R. rewrite E16. apply (scast_small 16); [lia | exact R].
  - intros R. rewrite E32. apply (scast_small 32); [lia | exact R].
Qed.

Lemma Imm_getters_truncate_witness :
  Imm.getInt8 (Imm.Imm_of (-128)) = Imm.getInt64 (Imm.Imm_of (-128)).
Proof.
  assert (Hv : valid (Imm.Imm_of (-128))) by by_eval.
  destruct (Imm_getters_truncate (Imm.Imm_of (-128)) Hv)
    as (_ & _ & _ & _ & _ & _ & _ & H & _).
  apply H. by_eval.
Defined.

Lemma value_u64_modk o k :
  0 <= k <= 64 -> Imm.value_u64 o mod 2 ^ k = Imm.getInt64 o mod 2 ^ k.
Proof.
  intros Hk. unfold Imm.getInt64, Imm.value_i64. rewrite i64_modk by lia.
  reflexivity.
Qed.

Lemma signExtend8_value o' :
  Imm.getInt64 (Imm.signExtend8Bits o') = i8 (Imm.getInt64 o').
Proof.
  unfold Imm.signExtend8Bits, Imm.set_value_i64.
  rewrite getInt64_stored, land_low_byte.
  pose proof (scast_range 8 (Imm.value_u64 o' mod 2 ^ 8) ltac:(lia)) as R.
  change (8 - 1) with 7 in R. fold (i8 (Imm.value_u64 o' mod 2 ^ 8)) in R.
  rewrite (i64_of_small (i8 _)) by lia. rewrite (i64_of_small (i8 _)) by lia.
  apply (scast_congr 8). rewrite Z.mod_mod by lia. apply value_u64_modk. lia.
Qed.

(** X23. [signExtend8Bits], [signExtend16Bits] and [signExtend32Bits]
    replace the stored value by its two's complement reading at that width:
    the result always lies in the signed range of the width, and a value
    already in that range is left as it is. *)
Theorem signExtend_value (o : Operand) :
  Imm.getInt64 (Imm.signExtend8Bits o) = i8 (Imm.getInt64 o) /\
  Imm.getInt64 (Imm.signExtend16Bits o) = i16 (Imm.getInt64 o) /\
  Imm.getInt64 (Imm.signExtend32Bits o) = i32 (Imm.getInt64 o) /\
  - 2 ^ 7 <= Imm.getInt64 (Imm.signExtend8Bits o) < 2 ^ 7 /\
  - 2 ^ 15 <= Imm.getInt64 (Imm.signExtend16Bits o) < 2 ^ 15 /\
  - 2 ^ 31 <= Imm.getInt64 (Imm.signExtend32Bits o) < 2 ^ 31 /\
  (- 2 ^ 7 <= Imm.getInt64 o < 2 ^ 7 ->
   Imm.getInt64 (Imm.signExtend8Bits o) = Imm.getInt64 o) /\
  (- 2 ^ 15 <= Imm.getInt64 o < 2 ^ 15 ->
   Imm.getInt64 (Imm.signExtend16Bits o) = Imm.getInt64 o) /\
  (- 2 ^ 31 <= Imm.getInt64 o < 2 ^ 31 ->
   Imm.getInt64 (Imm.signExtend32Bits o) = Imm.getInt64 o).
Proof.
  pose proof (scast_range 8 (Imm.getInt64 o) ltac:(lia)) as R8.
  pose proof (scast_range 16 (Imm.getInt64 o) ltac:(lia)) as R16.
  pose proof (scast_range 32 (Imm.getInt64 o) ltac:(lia)) as R32.
  change (8 - 1) with 7 in R8. change (16 - 1) with 15 in R16.
  change (32 - 1) with 31 in R32.
  fold (i8 (Imm.getInt64 o)) in R8. fold (i16 (Imm.getInt64 o)) in R16.
  fold (i32 (Imm.getInt64 o)) in R32.
  assert (E8 : Imm.getInt64 (Imm.signExtend8Bits o) = i8 (Imm.getInt64 o)).
  { unfold Imm.signExtend8Bits, Imm.set_value_i64. rewrite getInt64_stored.
    rewrite land_low_byte.
    replace (i8 (Imm.value_u64 o mod 2 ^ 8)) with (i8 (Imm.getInt64 o)).
    - rewrite (i64_of_small (i8 _)) by lia. rewrite (i64_of_small (i8 _)) by lia.
      reflexivity.
    - apply (scast_congr 8). rewrite Z.mod_mod by lia.
      symmetry. apply value_u64_modk. lia. }
  assert (E16 : Imm.getInt64 (Imm.signExtend16Bits o) = i16 (Imm.getInt64 o)).
  { unfold Imm.signExtend16Bits, Imm.set_value_i64. rewrite getInt64_stored.
    rewrite land_low_half.
    replace (i16 (Imm.value_u64 o mod 2 ^ 16)) with (i16 (Imm.getInt64 o)).
    - rewrite (i64_of_small (i16 _)) by lia. rewrite (i64_of_small (i16 _)) by lia.
      reflexivity.
    - apply (scast_congr 16). rewrite Z.mod_mod by lia.
      symmetry. apply value_u64_modk. lia. }
  assert (E32 : Imm.getInt64 (Imm.signExtend32Bits o) = i32 (Imm.getInt64 o)).
  { unfold Imm.signExtend32Bits, Imm.set_value_i64. rewrite getInt64_stored.
    rewrite land_low_word.
    replace (i32 (Imm.value_u64 o mod 2 ^ 32)) with (i32 (Imm.getInt64 o)).
    - rewrite (i64_of_small (i32 _)) by lia. rewrite (i64_of_small (i32 _)) by lia.
      reflexivity.
    - apply (scast_congr 32). rewrite Z.mod_mod by lia.
      symmetry. apply value_u64_modk. lia. }
  rewrite E8, E16, E32.
  split; [reflexivity |]. split; [reflexivity |]. split; [reflexivity |].
  split; [exact R8 |]. split; [exact R16 |]. split; [exact R32 |].
  split; [| split].
  - intros R. apply (scast_small 8); [lia | exact R].
  - intros R. apply (scast_small 16); [lia | exact R].
  - intros R. apply (scast_small 32); [lia | exact R].
Qed.

Lemma signExtend_value_witness :
  Imm.getInt64 (Imm.signExtend8Bits (Imm.Imm_of (-1))) = Imm.getInt64 (Imm.Imm_of (-1)).
Proof.
  destruct (signExtend_value (Imm.Imm_of (-1)))
    as (_ & _ & _ & _ & _ & _ & H & _).
  apply H. by_eval.
Defined.

(** X24. [zeroExtend8Bits], [zeroExtend16Bits] and [zeroExtend32Bits]
    replace the stored value by its low 8, 16 or 32 bits read as an unsigned
    number, so the result is never negative; sign-extending after
    zero-extending at the same width gives the sign extension of the
    original value. *)
Theorem zeroExtend_value (o : Operand) :
  Imm.getInt64 (Imm.zeroExtend8Bits o) = u8 (Imm.getInt64 o) /\
  Imm.getInt64 (Imm.zeroExtend16Bits o) = u16 (Imm.getInt64 o) /\
  Imm.getInt64 (Imm.zeroExtend32Bits o) = u32 (Imm.getInt64 o) /\
  0 <= Imm.getInt64 (Imm.zeroExtend8Bits o) < 2 ^ 8 /\
  0 <= Imm.getInt64 (Imm.zeroExtend16Bits o) < 2 ^ 16 /\
  0 <= Imm.getInt64 (Imm.zeroExtend32Bits o) < 2 ^ 32 /\
  Imm.getInt64 (Imm.signExtend8Bits (Imm.zeroExtend8Bits o))
  = Imm.getInt64 (Imm.signExtend8Bits o).
Proof.
  pose proof (Z.mod_pos_bound (Imm.getInt64 o) (2 ^ 8) ltac:(lia)) as U8.
  pose proof (Z.mod_pos_bound (Imm.getInt64 o) (2 ^ 16) ltac:(lia)) as U16.
  pose proof (Z.mod_pos_bound (Imm.getInt64 o) (2 ^ 32) ltac:(lia)) as U32.
  fold (u8 (Imm.getInt64 o)) in U8. fold (u16 (Imm.getInt64 o)) in U16.
  fold (u32 (Imm.getInt64 o)) in U32.
  assert (E8 : Imm.getInt64 (Imm.zeroExtend8Bits o) = u8 (Imm.getInt64 o)).
  { unfold Imm.zeroExtend8Bits, Imm.set_value_u64. rewrite getInt64_stored.
    rewrite land_low_byte, value_u64_modk by lia.
    fold (u8 (Imm.getInt64 o)). apply i64_of_small. lia. }
  assert (E16 : Imm.getInt64 (Imm.zeroExtend16Bits o) = u16 (Imm.getInt64 o)).
  { unfold Imm.zeroExtend16Bits, Imm.set_value_u64. rewrite getInt64_stored.
    rewrite land_low_half, value_u64_modk by lia.
    fold (u16 (Imm.getInt64 o)). apply i64_of_small. lia. }
  assert (E32 : Imm.getInt64 (Imm.zeroExtend32Bits o) = u32 (Imm.getInt64 o)).
  { unfold Imm.zeroExtend32Bits, Imm.set_value_u64. rewrite getInt64_stored.
    rewrite land_low_word, value_u64_modk by lia.
    fold (u32 (Imm.getInt64 o)). apply i64_of_small. lia. }
  rewrite E8, E16, E32.
  split; [reflexivity |]. split; [reflexivity |]. split; [reflexivity |].
  split; [exact U8 |]. split; [exact U16 |]. split; [exact U32 |].
  rewrite !signExtend8_value, E8.
  apply (scast_congr 8). unfold u8. apply Z.mod_mod. lia.
Qed.

(* ------------------------------------------------------------------------ *)
(** ** Calling-convention dispatch: the recognized ids                       *)
(* ------------------------------------------------------------------------ *)

(** X25. [CallConv::init] hands a recognized id to its family's builder on
    the reset descriptor: to the x86 builder whenever x86 is compiled in and
    claims the id (even if ARM claims it too), to the ARM builder when only
    ARM does.  In every case the result depends on the descriptor's previous
    content only through [reset]. *)
Theorem init_dispatch (B : CallConv.Build) (self self' : CallConv.Descriptor B)
    (ccId : Z) :
  (CallConv.ASMJIT_BUILD_X86 B && CallConv.isX86Family B ccId = true ->
   CallConv.init B self ccId
   = CallConv.X86CallConvInternal_init B (CallConv.reset B self) ccId) /\
  (CallConv.ASMJIT_BUILD_X86 B && CallConv.isX86Family B ccId = false ->
   CallConv.ASMJIT_BUILD_ARM B && CallConv.isArmFamily B ccId = true ->
   CallConv.init B self ccId
   = CallConv.ArmCallConvInternal_init B (CallConv.reset B self) ccId) /\
  (CallConv.reset B self = CallConv.reset B self' ->
   CallConv.init B self ccId = CallConv.init B self' ccId).
Proof.
  unfold CallConv.init. split; [| split].
  - intros ->. reflexivity.
  - intros -> ->. reflexivity.
  - intros ->. reflexivity.
Qed.

Lemma init_dispatch_witness :
  CallConv.init CallConv.x86_only 5 16 = (0, 16) /\
  CallConv.init CallConv.x86_only 5 16 = CallConv.init CallConv.x86_only 9 16.
Proof.
  destruct (init_dispatch CallConv.x86_only 5 9 16) as (H1 & _ & H3).
  split; [apply H1; reflexivity | apply H3; reflexivity].
Defined.
